(** * combine_code.py: tree concatenator

    A shallow embedding of [src/combine_code.py] and the properties of
    its traversal, filters and output layout.

    Conventions of the embedding.
    - A Python [str] is a [string] holding the UTF-8 encoding of the text;
      the raw bytes of a file are a [list byte].
    - The file system under the root is a finite tree of entries that does
      not change while the tool runs.  The order of a listing is the
      order in which [os.scandir] enumerates it.
    - File names are valid text and contain no separator.
    - The output file can be opened for writing and is not one of the
      files the traversal reads: in the reference invocation it lies in
      the root under a name that the extension filter rejects.
    - Paths are POSIX paths: the separator is "/" and writing "\n" to a
      text file stores one line-feed. *)

From Stdlib Require Import Strings.Ascii Strings.String Strings.Byte NArith.
From stdpp Require Import base decidable option list strings gmap.

Open Scope string_scope.
Open Scope list_scope.

(** ** Strings *)

#[global] Instance byte_eq_decision : EqDecision byte := Byte.byte_eq_dec.

Definition LF : ascii := "010"%char.
Definition CR : ascii := "013"%char.
Definition nl : string := String LF "".

(** [str.endswith(suffix)]: the last [len(suffix)] characters are compared
    with [suffix]; a suffix longer than the string never matches. *)
Definition endswith (s suffix : string) : bool :=
  if decide (String.length suffix ≤ String.length s)%nat then
    bool_decide
      (substring (String.length s - String.length suffix)
                 (String.length suffix) s = suffix)
  else false.

(** ** The two filter sets *)

Definition EXCLUDE_DIRS : gset string :=
  {[ "node_modules"; "venv"; "env"; "__pycache__"; ".git"; ".next";
     "dist"; "build"; "packages"; ".turbo"; ".cache" ]}.

Definition EXCLUDE_EXTS : gset string :=
  {[ ".json"; ".pdf"; ".txt" ]}.

(** [not any(filename.endswith(ext) for ext in EXCLUDE_EXTS)] *)
Definition should_include_file (filename : string) : bool :=
  negb (existsb (fun ext => endswith filename ext) (elements EXCLUDE_EXTS)).

(** ** Reading a file as text

    [open(path, 'r', encoding='utf-8', errors='ignore')] followed by
    [f.read()]: the bytes are decoded as UTF-8, every malformed sequence
    is dropped, and (text mode, [newline=None]) the line endings "\r\n"
    and "\r" are translated to "\n". *)
Module Codec.

Definition is_continuation (b : byte) : bool :=
  (128 <=? Byte.to_N b)%N && (Byte.to_N b <? 192)%N.

(** Second byte of a three-byte sequence: a continuation byte that is
    neither an overlong form (lead E0) nor a surrogate (lead ED). *)
Definition second_of_3 (b1 b2 : byte) : bool :=
  is_continuation b2 &&
  negb (if (Byte.to_N b2 <? 160)%N then (Byte.to_N b1 =? 224)%N
        else (Byte.to_N b1 =? 237)%N).

(** Second byte of a four-byte sequence: a continuation byte that is
    neither an overlong form (lead F0) nor beyond U+10FFFF (lead F4). *)
Definition second_of_4 (b1 b2 : byte) : bool :=
  is_continuation b2 &&
  negb (if (Byte.to_N b2 <? 144)%N then (Byte.to_N b1 =? 240)%N
        else (Byte.to_N b1 =? 244)%N).

Definition emit (bs : list byte) (rest : string) : string :=
  string_of_list_byte bs +:+ rest.

(** UTF-8 decoding with the [ignore] error handler.  An invalid start
    byte is dropped alone; a lead byte followed by a wrong byte is
    dropped together with the continuation bytes accepted so far and
    decoding resumes at the wrong byte; a sequence cut short by the end
    of the data is dropped. *)
Fixpoint utf8_ignore (bs : list byte) : string :=
  match bs with
  | [] => ""
  | b1 :: r1 =>
    let c := Byte.to_N b1 in
    if (c <? 128)%N then emit [b1] (utf8_ignore r1)
    else if (c <? 194)%N then utf8_ignore r1
    else if (c <? 224)%N then
      match r1 with
      | [] => ""
      | b2 :: r2 =>
        if is_continuation b2 then emit [b1; b2] (utf8_ignore r2)
        else utf8_ignore r1
      end
    else if (c <? 240)%N then
      match r1 with
      | [] => ""
      | b2 :: r2 =>
        if second_of_3 b1 b2 then
          match r2 with
          | [] => ""
          | b3 :: r3 =>
            if is_continuation b3 then emit [b1; b2; b3] (utf8_ignore r3)
            else utf8_ignore r2
          end
        else utf8_ignore r1
      end
    else if (c <? 245)%N then
      match r1 with
      | [] => ""
      | b2 :: r2 =>
        if second_of_4 b1 b2 then
          match r2 with
          | [] => ""
          | b3 :: r3 =>
            if is_continuation b3 then
              match r3 with
              | [] => ""
              | b4 :: r4 =>
                if is_continuation b4
                then emit [b1; b2; b3; b4] (utf8_ignore r4)
                else utf8_ignore r3
              end
            else utf8_ignore r2
          end
        else utf8_ignore r1
      end
    else utf8_ignore r1
  end.

(** Universal newlines on input. *)
Fixpoint universal_newlines (s : string) : string :=
  match s with
  | "" => ""
  | String c r =>
    if decide (c = CR) then
      match r with
      | String c' r' =>
        if decide (c' = LF) then String LF (universal_newlines r')
        else String LF (universal_newlines r)
      | "" => String LF ""
      end
    else String c (universal_newlines r)
  end.

Definition read_text (raw : list byte) : string :=
  universal_newlines (utf8_ignore raw).

End Codec.

Definition bytes_of (s : string) : list byte := list_byte_of_string s.

(** ** The file system under the root

    A non-directory entry carries what opening it for reading gives: its
    bytes, or [None] when [open] raises [OSError] (no permission, dangling
    link).  A directory entry carries its listing, or [None] when
    [os.walk] does not list it: [os.scandir] failed on it, or it is a
    symbolic link ([followlinks] is off). *)
#[local] Unset Elimination Schemes.
Inductive entry : Type :=
| File (name : string) (data : option (list byte))
| Dir (name : string) (listing : option (list entry)).
#[local] Set Elimination Schemes.

Definition entry_name (e : entry) : string :=
  match e with File n _ | Dir n _ => n end.

(** A directory path, held as the components below the root: this is what
    [os.path.relpath(_, root_dir)] gives back for paths produced by
    joining names onto [root_dir]. *)
Abbreviation path := (list string).

Definition os_path_join (dirpath : path) (name : string) : path :=
  dirpath ++ [name].

Definition os_path_relpath (p : path) : string := String.concat "/" p.

Definition dirnames (listing : list entry) : list string :=
  omap (fun e => match e with Dir n _ => Some n | File _ _ => None end) listing.

Definition filenames (listing : list entry)
  : list (string * option (list byte)) :=
  omap (fun e => match e with File n d => Some (n, d) | Dir _ _ => None end)
       listing.

(** One item produced by [os.walk]: [(dirpath, dirnames, filenames)], the
    file names paired with what opening them gives. *)
Abbreviation visit :=
  (path * list string * list (string * option (list byte)))%type.

(** [os.walk(top)], top-down, errors of [scandir] ignored (the default
    [onerror=None]).  [on_dirs] is what the consumer does to [dirnames]
    in place between the yield and the descent; the walk then descends
    only into the names that are left, and yields nothing for a directory
    it cannot list.  [descend] is the step into one entry of a listing
    whose surviving names are [dirs]; [os_walk] is the visit of one
    directory. *)
Fixpoint descend (on_dirs : list string → list string)
    (top : path) (dirs : list string) (e : entry) {struct e} : list visit :=
  match e with
  | Dir n (Some sub) =>
    if bool_decide (n ∈ dirs) then
      let top' := os_path_join top n in
      let dirs' := on_dirs (dirnames sub) in
      (top', dirs', filenames sub) :: (sub ≫= descend on_dirs top' dirs')
    else []
  | _ => []
  end.

Definition os_walk (on_dirs : list string → list string)
    (top : path) (listing : list entry) : list visit :=
  let dirs := on_dirs (dirnames listing) in
  (top, dirs, filenames listing) :: (listing ≫= descend on_dirs top dirs).

Definition os_walk_root (on_dirs : list string → list string)
    (root_dir : option (list entry)) : list visit :=
  match root_dir with
  | Some listing => os_walk on_dirs [] listing
  | None => []
  end.

(** ** Writing: output and exceptions

    The output is kept as the sequence of [out.write] calls made so far:
    a header written for a relative path, or the text of a file.  The
    content of the output file is the concatenation of what the calls
    wrote. *)
Inductive chunk : Type :=
| Header (rel_path : path)
| Content (text : string).

#[global] Instance chunk_eq_dec : EqDecision chunk.
Proof. solve_decision. Defined.

(** [f"\n\n# ==== {rel_path} ====\n\n"] *)
Definition header (rel_path : string) : string :=
  nl +:+ nl +:+ "# ==== " +:+ rel_path +:+ " ====" +:+ nl +:+ nl.

Definition render (c : chunk) : string :=
  match c with
  | Header p => header (os_path_relpath p)
  | Content text => text
  end.

Definition file_content (log : list chunk) : string :=
  String.concat "" (render <$> log).

(** A computation takes the calls made so far and gives the calls made
    after it, with [Some] result when it returns and [None] when an
    exception leaves it.  What was written before the exception stays
    written: the [with] block closes the handle on the way out. *)
Definition IO (A : Type) : Type := list chunk → option A * list chunk.

Definition io_ret {A} (a : A) : IO A := fun log => (Some a, log).

Definition io_bind {A B} (m : IO A) (k : A → IO B) : IO B :=
  fun log =>
    match m log with
    | (Some a, log') => k a log'
    | (None, log') => (None, log')
    end.

Definition io_raise {A} : IO A := fun log => (None, log).

Definition out_write (c : chunk) : IO unit :=
  fun log => (Some (), log ++ [c]).

#[global] Instance io_mret : MRet IO := @io_ret.
#[global] Instance io_mbind : MBind IO := fun A B k m => io_bind m k.

Fixpoint for_each {A} (xs : list A) (body : A → IO unit) : IO unit :=
  match xs with
  | [] => mret ()
  | x :: xs' => body x ;; for_each xs' body
  end.

(** [open(path, 'r', ...)] then [f.read()] *)
Definition open_read (data : option (list byte)) : IO string :=
  match data with
  | Some raw => mret (Codec.read_text raw)
  | None => io_raise
  end.

(** ** The program *)

(** [dirnames[:] = [d for d in dirnames if d not in EXCLUDE_DIRS]] *)
Definition prune (ds : list string) : list string :=
  filter (fun d => d ∉ EXCLUDE_DIRS) ds.

(** The body of the inner loop, for one name of [filenames].  The header
    is written with the joined path; [render] turns it into the text
    relative to the root. *)
Definition write_file (dirpath : path) (f : string * option (list byte))
  : IO unit :=
  let '(filename, data) := f in
  if should_include_file filename then
    let rel_path := os_path_join dirpath filename in
    out_write (Header rel_path) ;;
    content ← open_read data;
    out_write (Content content)
  else mret ().

(** The two nested loops. *)
Definition write_tree (root_dir : option (list entry)) : IO unit :=
  for_each (os_walk_root prune root_dir)
    (fun v => let '(dirpath, _, files) := v in
              for_each files (write_file dirpath)).

(** [open(output_file, 'w', encoding='utf-8')]: whatever the path held,
    the run starts with nothing written. *)
Definition open_for_writing (output_file : option string) : list chunk := [].

(** The calls of one run, and whether it returned. *)
Definition main_trace (root_dir : option (list entry))
  : option unit * list chunk :=
  write_tree root_dir [].

(** [main(root_dir, output_file)].  [output_file] is the state of the
    output path before the run ([None]: no such file); the result is
    whether the run returned ([Some ()]) or raised, and the state of the
    output path after it.  Opening with mode ['w'] creates the file or
    empties it, whatever it held. *)
Definition main (root_dir : option (list entry)) (output_file : option string)
  : option unit * option string :=
  let '(r, log) := write_tree root_dir (open_for_writing output_file) in
  (r, Some (file_content log)).

(** What opening a file that holds the ASCII text [s] gives. *)
Definition py (s : string) : option (list byte) := Some (bytes_of s).

(** ** What the loops reach

    [included root_dir] lists, in the order of the two loops, the files
    that pass the filter in the directories [os.walk] visits, each as
    [(dirpath, filename, data)].  [process] writes them one after the
    other and stops at the first one that cannot be opened. *)
Abbreviation item := (path * string * option (list byte))%type.

Definition included_in (v : visit) : list item :=
  let '(dirpath, _, files) := v in
  (fun f : string * option (list byte) => (dirpath, f.1, f.2)) <$>
    filter (fun f : string * option (list byte) =>
              should_include_file f.1 = true) files.

Definition included (root_dir : option (list entry)) : list item :=
  v ← os_walk_root prune root_dir; included_in v.

Fixpoint process (fs : list item) : option unit * list chunk :=
  match fs with
  | [] => (Some (), [])
  | (dirpath, filename, Some raw) :: fs' =>
    let '(r, log) := process fs' in
    (r, Header (os_path_join dirpath filename) ::
        Content (Codec.read_text raw) :: log)
  | (dirpath, filename, None) :: _ =>
    (None, [Header (os_path_join dirpath filename)])
  end.

(** ** The files of the tree

    [files_below e] lists every file at or beneath the entry [e] with the
    directory names that lead to it; [all_files] does so for a listing.
    Nothing lies beneath a directory that cannot be listed. *)
Fixpoint files_below (e : entry) : list item :=
  match e with
  | File n d => [([], n, d)]
  | Dir n (Some sub) =>
    (fun f : item => (n :: f.1.1, f.1.2, f.2)) <$> (sub ≫= files_below)
  | Dir _ None => []
  end.

Definition all_files (listing : list entry) : list item :=
  listing ≫= files_below.

(** [file_at root_dir dirs name data]: the tree has a file [name] with
    [data] in the directory reached from the root through [dirs]. *)
Definition file_at (root_dir : option (list entry))
    (dirs : path) (name : string) (data : option (list byte)) : Prop :=
  match root_dir with
  | Some listing => (dirs, name, data) ∈ all_files listing
  | None => False
  end.

#[global] Instance file_at_dec root_dir dirs name data :
  Decision (file_at root_dir dirs name data).
Proof. destruct root_dir; simpl; apply _. Defined.

(** No directory on the way is excluded, and the name passes the
    extension filter. *)
Definition visible (f : item) : Prop :=
  Forall (fun d => d ∉ EXCLUDE_DIRS) f.1.1 ∧ should_include_file f.1.2 = true.

#[global] Instance visible_dec f : Decision (visible f).
Proof. unfold visible. apply _. Defined.

(** The names of a listing are pairwise distinct, at every level. *)
Fixpoint distinct_names_in (e : entry) : bool :=
  match e with
  | Dir _ (Some sub) =>
    bool_decide (NoDup (entry_name <$> sub)) && forallb distinct_names_in sub
  | _ => true
  end.

Definition distinct_names (root_dir : option (list entry)) : bool :=
  match root_dir with
  | Some listing =>
    bool_decide (NoDup (entry_name <$> listing)) &&
    forallb distinct_names_in listing
  | None => true
  end.

Definition under (top : path) (f : item) : item :=
  (top ++ f.1.1, f.1.2, f.2).

(** What one entry contributes to the visit of its directory. *)
Definition here_of (top : path) (e : entry) : list item :=
  match e with
  | File n d => if should_include_file n then [(top, n, d)] else []
  | Dir _ _ => []
  end.

(** What the walk reaches through one entry of a listing. *)
Definition reach (top : path) (dirs : list string) (e : entry) : list item :=
  here_of top e ++ (descend prune top dirs e ≫= included_in).

Definition reach_ok (e : entry) : Prop :=
  ∀ top dirs,
    (∀ n lst, e = Dir n lst → (n ∈ dirs ↔ n ∉ EXCLUDE_DIRS)) →
    reach top dirs e ≡ₚ under top <$> filter visible (files_below e).

Definition readable (f : item) : Prop := is_Some f.2.

(** What is written for a file that opens. *)
Definition chunks_of (f : item) : list chunk :=
  match f.2 with
  | Some raw => [Header (os_path_join f.1.1 f.1.2);
                 Content (Codec.read_text raw)]
  | None => [Header (os_path_join f.1.1 f.1.2)]
  end.

Definition clean (p : path) : Prop := Forall (fun d => d ∉ EXCLUDE_DIRS) p.

(** One record of the output file: the header written for a relative
    path, then the text of the file. *)
Definition record_text (r : path * string) : string :=
  header (os_path_relpath r.1) +:+ r.2.

(** What the two [out.write] calls for a record append to the trace. *)
Definition record_chunks (r : path * string) : list chunk :=
  [Header r.1; Content r.2].

(** The first component of the path of a file. *)
Definition head_name (k : path * string) : string :=
  match k.1 with
  | [] => k.2
  | d :: _ => d
  end.

(** The characters that no decoding step touches: ASCII other than the
    two line-ending characters. *)
Definition is_plain (c : ascii) : bool :=
  (N_of_ascii c <? 128)%N && negb (Ascii.eqb c CR) && negb (Ascii.eqb c LF).

Fixpoint plain (s : string) : string :=
  match s with
  | "" => ""
  | String c r => if is_plain c then String c (plain r) else plain r
  end.

(** A place where a character can start: the end of the data, or a byte
    that is not a continuation byte. *)
Definition boundary (bs : list byte) : Prop :=
  match bs with
  | [] => True
  | b :: _ => Codec.is_continuation b = false
  end.

(** Two entries that differ at most in what lies beneath directories with
    an excluded name. *)
#[local] Unset Elimination Schemes.
Inductive agree : entry → entry → Prop :=
| agree_file n d : agree (File n d) (File n d)
| agree_excluded n l1 l2 : n ∈ EXCLUDE_DIRS → agree (Dir n l1) (Dir n l2)
| agree_unlisted n : agree (Dir n None) (Dir n None)
| agree_dir n sub1 sub2 :
    Forall2 agree sub1 sub2 → agree (Dir n (Some sub1)) (Dir n (Some sub2)).
#[local] Set Elimination Schemes.

(** A visit of [os.walk] seen from a directory [top] further up. *)
Definition shift (top : path) (v : visit) : visit :=
  (top ++ v.1.1, v.1.2, v.2).

(** A call of [out.write] made for the subdirectory [n], seen from the
    directory above it. *)
Definition push (n : string) (c : chunk) : chunk :=
  match c with
  | Header p => Header (n :: p)
  | Content text => Content text
  end.

(** The files of a listing itself that the loops reach. *)
Definition own_files (listing : list entry) : list item :=
  listing ≫= here_of [].

(** The files that the loops reach beneath one entry of a listing. *)
Definition included_below (e : entry) : list item :=
  match e with
  | Dir n (Some sub) =>
    if decide (n ∈ EXCLUDE_DIRS) then [] else under [n] <$> included (Some sub)
  | _ => []
  end.

(** What a run on the subdirectory writes, seen from the directory above. *)
Definition trace_below (e : entry) : list chunk :=
  match e with
  | Dir n (Some sub) =>
    if decide (n ∈ EXCLUDE_DIRS) then []
    else push n <$> (main_trace (Some sub)).2
  | _ => []
  end.

(** The paths of the headers written, in order. *)
Definition headers (log : list chunk) : list path :=
  omap (fun c => match c with Header p => Some p | Content _ => None end) log.

(** The path a file is written under. *)
Definition path_of (f : item) : path := os_path_join f.1.1 f.1.2.

(** The part of a tree that passes both filters: the files whose name the
    extension filter accepts, in the listable directories whose name is
    not excluded. *)
Fixpoint strip (e : entry) : list entry :=
  match e with
  | File n d => if should_include_file n then [File n d] else []
  | Dir n (Some sub) =>
    if decide (n ∈ EXCLUDE_DIRS) then [] else [Dir n (Some (sub ≫= strip))]
  | Dir _ None => []
  end.

(** Bytes that are ASCII text with no carriage return. *)
Definition ascii_text (raw : list byte) : bool :=
  forallb (fun b => (Byte.to_N b <? 128)%N && negb (Byte.eqb b x0d)) raw.

(** [c in s] *)
Fixpoint occurs (c : ascii) (s : string) : bool :=
  match s with
  | "" => false
  | String c' r => Ascii.eqb c c' || occurs c r
  end.

(** The name holds the path separator. *)
Fixpoint has_sep (s : string) : bool :=
  match s with
  | "" => false
  | String c r => Ascii.eqb c "/" || has_sep r
  end.

(** What a directory entry can be called: a name that is not empty and
    holds no separator. *)
Definition is_name (s : string) : bool :=
  negb (String.eqb s "") && negb (has_sep s).

(** * Tests and properties *)

Example should_include_py : should_include_file "a.py" = true.
Proof. vm_compute. reflexivity. Qed.
Example should_include_txt : should_include_file "notes.txt" = false.
Proof. vm_compute. reflexivity. Qed.

Example read_text_plain :
  Codec.read_text (bytes_of "print(1)") = "print(1)".
Proof. vm_compute. reflexivity. Qed.

Example read_text_drops_invalid :
  Codec.read_text (bytes_of "a" ++ [xff; xc3] ++ bytes_of "b" ++ [xe2; x82])
  = "ab".
Proof. vm_compute. reflexivity. Qed.

Example read_text_keeps_valid_multibyte :
  Codec.read_text [xc3; xa9; xe2; x82; xac] =
  string_of_list_byte [xc3; xa9; xe2; x82; xac].
Proof. vm_compute. reflexivity. Qed.

Example read_text_newlines :
  Codec.read_text (bytes_of "a" ++ [x0d; x0a] ++ bytes_of "b" ++ [x0d])
  = "a" +:+ nl +:+ "b" +:+ nl.
Proof. vm_compute. reflexivity. Qed.

(** The scenarios of the specification. *)
Example scenario_A :
  main (Some [File "a.py" (py "A"); Dir "node_modules" (Some [File "b.py" (py "B")])])
       None
  = (Some (), Some (header "a.py" +:+ "A")).
Proof. vm_compute. reflexivity. Qed.

Example scenario_B :
  main (Some [File "notes.txt" (py "N"); File "main.go" (py "M")]) None
  = (Some (), Some (header "main.go" +:+ "M")).
Proof. vm_compute. reflexivity. Qed.

Example scenario_C :
  main (Some [Dir "dist" (Some [File "x.go" (py "X")])]) None
  = (Some (), Some "").
Proof. vm_compute. reflexivity. Qed.

Example scenario_D : main (Some []) None = (Some (), Some "").
Proof. vm_compute. reflexivity. Qed.

Example nested_order :
  main (Some [Dir "src" (Some [Dir "lib" (Some [File "c.py" (py "C")]);
                               File "b.py" (py "B")]);
              File "a.py" (py "A");
              Dir "doc" (Some [File "d.md" (py "D")])]) (Some "old")
  = (Some (), Some (header "a.py" +:+ "A" +:+ header "src/b.py" +:+ "B" +:+
                    header "src/lib/c.py" +:+ "C" +:+ header "doc/d.md" +:+ "D")).
Proof. vm_compute. reflexivity. Qed.

Example unreadable_aborts :
  main_trace (Some [File "a.py" (py "A"); File "b.py" None; File "c.py" (py "C")])
  = (None, [Header ["a.py"]; Content "A"; Header ["b.py"]]).
Proof. vm_compute. reflexivity. Qed.

(** A directory that cannot be listed is passed over in silence, like a
    root that cannot be listed. *)
Example unlistable_directory_skipped :
  main_trace (Some [Dir "private" None; File "a.py" (py "A")])
  = (Some (), [Header ["a.py"]; Content "A"]).
Proof. vm_compute. reflexivity. Qed.

(** The order of the output follows the order of enumeration. *)
Example enumeration_order_matters :
  main (Some [File "a.py" (py "A"); File "b.py" (py "B")]) None ≠
  main (Some [File "b.py" (py "B"); File "a.py" (py "A")]) None.
Proof. vm_compute. discriminate. Qed.

Section Loops.

Lemma io_bind_unfold {A B} (m : IO A) (k : A → IO B) log :
  (m ≫= k) log =
  match m log with
  | (Some a, log') => k a log'
  | (None, log') => (None, log')
  end.
Proof. reflexivity. Qed.

Lemma write_file_unfold dirpath n d log :
  write_file dirpath (n, d) log =
  if should_include_file n then
    match d with
    | Some raw =>
      (Some (), log ++ [Header (os_path_join dirpath n);
                        Content (Codec.read_text raw)])
    | None => (None, log ++ [Header (os_path_join dirpath n)])
    end
  else (Some (), log).
Proof.
  unfold write_file. destruct (should_include_file n); [|done].
  rewrite io_bind_unfold. unfold out_write at 1.
  rewrite io_bind_unfold. destruct d as [raw|]; simpl.
  - unfold mret, io_mret, io_ret, out_write. by rewrite <-app_assoc.
  - done.
Qed.

Lemma process_app fs1 fs2 :
  process (fs1 ++ fs2) =
  match process fs1 with
  | (Some _, log1) =>
    let '(r, log2) := process fs2 in (r, log1 ++ log2)
  | (None, log1) => (None, log1)
  end.
Proof.
  induction fs1 as [|[[dp n] [raw|]] fs1 IH]; simpl.
  - by destruct (process fs2).
  - rewrite IH. destruct (process fs1) as [[[]|] log1]; [|done].
    by destruct (process fs2).
  - done.
Qed.

Lemma for_each_files dirpath dirs files log :
  for_each files (write_file dirpath) log =
  let '(r, l) := process (included_in (dirpath, dirs, files)) in
  (r, log ++ l).
Proof.
  unfold included_in. revert log.
  induction files as [|[n d] files IH]; intros log; cbn [for_each].
  - unfold mret, io_mret, io_ret. simpl. by rewrite app_nil_r.
  - rewrite io_bind_unfold, write_file_unfold.
    rewrite filter_cons. cbn [fst snd].
    destruct (should_include_file n) eqn:Hn.
    + rewrite decide_True by done. rewrite fmap_cons. simpl.
      destruct d as [raw|]; [|done].
      rewrite IH.
      destruct (process _) as [r l]. by rewrite <-app_assoc.
    + rewrite decide_False by done. apply IH.
Qed.

Lemma for_each_visits (vs : list visit) log :
  for_each vs (fun v => let '(dirpath, _, files) := v in
                        for_each files (write_file dirpath)) log =
  let '(r, l) := process (vs ≫= included_in) in (r, log ++ l).
Proof.
  revert log. induction vs as [|[[dirpath dirs] files] vs IH]; intros log.
  - simpl. by rewrite app_nil_r.
  - cbn [for_each]. rewrite io_bind_unfold, (for_each_files _ dirs).
    rewrite bind_cons, process_app.
    destruct (process (included_in _)) as [[[]|] l1]; [|done].
    rewrite IH. destruct (process _) as [r l2]. by rewrite <-app_assoc.
Qed.

(** The run writes exactly [process (included root_dir)]. *)
Lemma main_trace_process root_dir :
  main_trace root_dir = process (included root_dir).
Proof.
  unfold main_trace, write_tree, included.
  rewrite for_each_visits. by destruct (process _).
Qed.

End Loops.

(** Induction on entries, with the hypothesis for every entry of a
    sub-listing. *)
Lemma entry_ind (P : entry → Prop) :
  (∀ n d, P (File n d)) →
  (∀ n, P (Dir n None)) →
  (∀ n sub, Forall P sub → P (Dir n (Some sub))) →
  ∀ e, P e.
Proof.
  intros HF HN HD. fix IH 1. intros [n d|n [sub|]].
  - apply HF.
  - apply HD. induction sub as [|e sub IHsub]; constructor; [apply IH | apply IHsub].
  - apply HN.
Qed.

(** ** The loops reach exactly the visible files of the tree *)
Section Reach.

Lemma included_in_here top ds listing :
  included_in (top, ds, filenames listing) = listing ≫= here_of top.
Proof.
  unfold included_in, filenames.
  induction listing as [|[n d|n lst] listing IH]; [done| |done].
  rewrite bind_cons. cbn [omap list_omap here_of].
  rewrite filter_cons. cbn [fst snd].
  destruct (should_include_file n).
  - rewrite decide_True by done. rewrite fmap_cons. simpl. f_equal. apply IH.
  - rewrite decide_False by done. apply IH.
Qed.

Lemma prune_elem n ds : n ∈ prune ds ↔ n ∈ ds ∧ n ∉ EXCLUDE_DIRS.
Proof. unfold prune. rewrite list_elem_of_filter. tauto. Qed.

Lemma dirnames_elem n listing :
  n ∈ dirnames listing ↔ ∃ lst, Dir n lst ∈ listing.
Proof.
  unfold dirnames. rewrite list_elem_of_omap. split.
  - intros [[m d|m lst] [Hin Heq]]; [done|]. simplify_eq. eauto.
  - intros [lst Hin]. exists (Dir n lst). done.
Qed.

Lemma bind_perm_ext {A B} (f g : A → list B) (l : list A) :
  (∀ x, x ∈ l → f x ≡ₚ g x) → l ≫= f ≡ₚ l ≫= g.
Proof.
  induction l as [|x l IH]; intros Hfg; [done|].
  rewrite !bind_cons. f_equiv.
  - apply Hfg. left.
  - apply IH. intros y Hy. apply Hfg. by right.
Qed.

Lemma bind_app_perm {A B} (f g : A → list B) (l : list A) :
  l ≫= (fun x => f x ++ g x) ≡ₚ (l ≫= f) ++ (l ≫= g).
Proof.
  induction l as [|x l IH]; [done|].
  rewrite !bind_cons, IH. solve_Permutation.
Qed.

Lemma filter_visible_cons n (fs : list item) :
  filter visible ((fun f : item => (n :: f.1.1, f.1.2, f.2)) <$> fs) =
  if decide (n ∉ EXCLUDE_DIRS)
  then (fun f : item => (n :: f.1.1, f.1.2, f.2)) <$> filter visible fs
  else [].
Proof.
  induction fs as [|[[ds m] d] fs IH].
  - rewrite fmap_nil, filter_nil.
    destruct (decide (n ∉ EXCLUDE_DIRS)); reflexivity.
  - rewrite fmap_cons, filter_cons, IH, filter_cons. cbn [fst snd].
    destruct (decide (n ∉ EXCLUDE_DIRS)) as [Hn|Hn].
    + destruct (decide (visible (ds, m, d))) as [[H1 H2]|Hv].
      * rewrite decide_True; [reflexivity|].
        split; [constructor; assumption | assumption].
      * rewrite decide_False; [reflexivity|]. intros [H1 H2]. apply Hv.
        split; [inversion H1; assumption | assumption].
    + rewrite decide_False; [reflexivity|].
      intros [H1 H2]. inversion H1; contradiction.
Qed.

Lemma filter_bind {A B} (P : B → Prop) `{∀ x, Decision (P x)}
    (f : A → list B) (l : list A) :
  filter P (l ≫= f) = l ≫= (fun x => filter P (f x)).
Proof.
  induction l as [|x l IH]; [done|].
  by rewrite !bind_cons, filter_app, IH.
Qed.

Lemma fmap_bind_list {A B C} (g : B → C) (f : A → list B) (l : list A) :
  g <$> (l ≫= f) = l ≫= (fun x => g <$> f x).
Proof.
  induction l as [|x l IH]; [done|].
  by rewrite !bind_cons, fmap_app, IH.
Qed.

Lemma perm_of_eq {A} (l k : list A) : l = k → l ≡ₚ k.
Proof. intros ->. reflexivity. Qed.

Lemma bind_bind {A B C} (f : A → list B) (g : B → list C) (l : list A) :
  (l ≫= f) ≫= g = l ≫= (fun x => f x ≫= g).
Proof.
  induction l as [|x l IH]; [reflexivity|].
  rewrite !bind_cons, bind_app, IH. reflexivity.
Qed.

Lemma reach_listing top listing :
  Forall reach_ok listing →
  os_walk prune top listing ≫= included_in
  ≡ₚ under top <$> filter visible (all_files listing).
Proof.
  intros Hall. unfold os_walk, all_files.
  rewrite bind_cons, included_in_here, bind_bind.
  rewrite filter_bind, fmap_bind_list, <-bind_app_perm.
  apply bind_perm_ext. intros e He.
  rewrite Forall_forall in Hall. apply (Hall e He).
  intros n lst ->. rewrite prune_elem, dirnames_elem.
  split; [tauto|]. intros Hn. split; [eauto | assumption].
Qed.

Lemma reach_entry e : reach_ok e.
Proof.
  induction e as [n d|n|n sub IH] using entry_ind; intros top dirs Hdirs.
  - unfold reach. cbn [descend here_of files_below]. 
    rewrite app_nil_r, filter_cons, filter_nil. cbn [fst snd].
    destruct (should_include_file n) eqn:Hn.
    + rewrite decide_True; [|split; [constructor | assumption]].
      unfold under. cbn. rewrite app_nil_r. reflexivity.
    + rewrite decide_False; [reflexivity|]. intros [_ H]. cbn in H. congruence.
  - reflexivity.
  - unfold reach. cbn [descend here_of files_below app].
    rewrite filter_visible_cons.
    destruct (decide (n ∉ EXCLUDE_DIRS)) as [Hn|Hn].
    + rewrite bool_decide_eq_true_2 by (apply (Hdirs n (Some sub)); [reflexivity | assumption]).
      change ((os_path_join top n, prune (dirnames sub), filenames sub)
                :: (sub ≫= descend prune (os_path_join top n) (prune (dirnames sub))))
        with (os_walk prune (os_path_join top n) sub).
      rewrite (reach_listing _ _ IH).
      rewrite <-!list_fmap_compose. unfold all_files.
      apply perm_of_eq. apply list_fmap_ext. intros i [[ds m] d] _.
      unfold under, os_path_join. cbn. rewrite <-app_assoc. reflexivity.
    + rewrite bool_decide_eq_false_2; [reflexivity|].
      intros Hin. apply Hn. apply (Hdirs n (Some sub)); [reflexivity | assumption].
Qed.

(** The files the loops reach are the visible files of the tree, up to
    the order in which they are met. *)
Lemma included_visible listing :
  included (Some listing) ≡ₚ filter visible (all_files listing).
Proof.
  unfold included, os_walk_root.
  rewrite reach_listing by (apply Forall_forall; intros; apply reach_entry).
  apply perm_of_eq.
  rewrite <-(list_fmap_id (filter visible (all_files listing))) at 2.
  apply list_fmap_ext. intros i [[ds m] d] _. reflexivity.
Qed.

End Reach.

Section Process.

Lemma included_iff root_dir dirs name data :
  (dirs, name, data) ∈ included root_dir ↔
  file_at root_dir dirs name data ∧ visible (dirs, name, data).
Proof.
  destruct root_dir as [listing|].
  - rewrite included_visible, list_elem_of_filter. simpl. tauto.
  - unfold included. simpl. rewrite elem_of_nil. tauto.
Qed.

Lemma process_readable fs :
  Forall readable fs → process fs = (Some (), fs ≫= chunks_of).
Proof.
  induction 1 as [|[[dp n] d] fs [raw Hraw] _ IH]; [reflexivity|].
  simpl in Hraw. subst d. cbn [process]. rewrite IH. reflexivity.
Qed.

Lemma process_unreadable fs1 dp n fs2 :
  Forall readable fs1 →
  process (fs1 ++ (dp, n, None) :: fs2) =
  (None, (fs1 ≫= chunks_of) ++ [Header (os_path_join dp n)]).
Proof.
  intros Hfs1. rewrite process_app, (process_readable _ Hfs1). reflexivity.
Qed.

(** A list of items is all readable, or splits at its first unreadable
    item. *)
Lemma first_unreadable (fs : list item) :
  Forall readable fs ∨
  ∃ fs1 dp n fs2, fs = fs1 ++ (dp, n, None) :: fs2 ∧ Forall readable fs1.
Proof.
  induction fs as [|[[dp n] [raw|]] fs IH].
  - left. constructor.
  - destruct IH as [IH|(fs1 & dp' & n' & fs2 & -> & Hfs1)].
    + left. constructor; [by eexists | assumption].
    + right. exists ((dp, n, Some raw) :: fs1), dp', n', fs2.
      split; [reflexivity|]. constructor; [by eexists | assumption].
  - right. exists [], dp, n, fs. split; [reflexivity | constructor].
Qed.

Lemma process_returns_iff fs :
  (process fs).1 = Some () ↔ Forall readable fs.
Proof.
  split.
  - intros Hret. destruct (first_unreadable fs)
      as [H|(fs1 & dp & n & fs2 & -> & Hfs1)]; [assumption|].
    rewrite process_unreadable in Hret by assumption. discriminate.
  - intros H. rewrite process_readable by assumption. reflexivity.
Qed.

Lemma header_in_chunks p (fs : list item) :
  Header p ∈ fs ≫= chunks_of →
  ∃ dirs name d, p = os_path_join dirs name ∧ (dirs, name, d) ∈ fs.
Proof.
  rewrite list_elem_of_bind. intros ([[dirs name] d] & Hin & Hf).
  exists dirs, name, d. split; [|assumption].
  unfold chunks_of in Hin. cbn [fst snd] in Hin.
  destruct d as [raw|].
  - apply elem_of_cons in Hin as [Hin|Hin]; [congruence|].
    apply list_elem_of_singleton in Hin. discriminate.
  - apply list_elem_of_singleton in Hin. congruence.
Qed.

(** Every header of a run is the header of a file the loops reach. *)
Lemma header_in_trace root_dir p :
  Header p ∈ (main_trace root_dir).2 →
  ∃ dirs name d, p = os_path_join dirs name ∧ (dirs, name, d) ∈ included root_dir.
Proof.
  rewrite main_trace_process.
  destruct (first_unreadable (included root_dir))
    as [H|(fs1 & dp & n & fs2 & Heq & Hfs1)].
  - rewrite process_readable by assumption. apply header_in_chunks.
  - rewrite Heq, process_unreadable by assumption. cbn [snd].
    rewrite elem_of_app, list_elem_of_singleton. intros [Hin|Hin].
    + apply header_in_chunks in Hin as (dirs & name & d & -> & Hin).
      exists dirs, name, d. split; [reflexivity|].
      rewrite elem_of_app. left; assumption.
    + injection Hin as ->. exists dp, n, None. split; [reflexivity|].
      rewrite elem_of_app. right; left.
Qed.

Lemma os_path_join_inj dirs1 name1 dirs2 name2 :
  os_path_join dirs1 name1 = os_path_join dirs2 name2 →
  dirs1 = dirs2 ∧ name1 = name2.
Proof. unfold os_path_join. intros H. by apply app_inj_tail in H. Qed.

End Process.

(** ** Directories the walk visits *)
Section Visits.

Lemma descend_dirpaths e :
  ∀ top dirs (v : visit),
    (∀ n, n ∈ dirs → n ∉ EXCLUDE_DIRS) →
    v ∈ descend prune top dirs e →
    ∃ rest, v.1.1 = top ++ rest ∧ clean rest.
Proof.
  induction e as [n d|n|n sub IH] using entry_ind;
    intros top dirs v Hdirs Hv; cbn [descend] in Hv.
  - apply elem_of_nil in Hv. contradiction.
  - apply elem_of_nil in Hv. contradiction.
  - destruct (bool_decide (n ∈ dirs)) eqn:Hn;
      [|apply elem_of_nil in Hv; contradiction].
    apply bool_decide_eq_true_1 in Hn.
    apply elem_of_cons in Hv as [->|Hv].
    + exists [n]. split; [reflexivity|].
      constructor; [apply Hdirs; assumption | constructor].
    + apply list_elem_of_bind in Hv as (e & Hv & He).
      rewrite Forall_forall in IH.
      destruct (IH e He (os_path_join top n) (prune (dirnames sub)) v)
        as (rest & Hrest & Hclean); [|assumption|].
      { intros m Hm. apply prune_elem in Hm. tauto. }
      exists (n :: rest). split.
      * rewrite Hrest. unfold os_path_join. rewrite <-app_assoc. reflexivity.
      * constructor; [apply Hdirs; assumption | assumption].
Qed.

Lemma os_walk_dirpaths root_dir (v : visit) :
  v ∈ os_walk_root prune root_dir → clean v.1.1.
Proof.
  destruct root_dir as [listing|]; cbn [os_walk_root];
    [|intros H; apply elem_of_nil in H; contradiction].
  unfold os_walk. intros [->|Hv]%elem_of_cons; [constructor|].
  apply list_elem_of_bind in Hv as (e & Hv & He).
  destruct (descend_dirpaths e [] (prune (dirnames listing)) v)
    as (rest & Hrest & Hclean); [|assumption|].
  - intros m Hm. apply prune_elem in Hm. tauto.
  - rewrite Hrest. assumption.
Qed.

End Visits.

Lemma main_unfold root_dir output_file :
  main root_dir output_file =
  ((main_trace root_dir).1, Some (file_content (main_trace root_dir).2)).
Proof.
  unfold main, open_for_writing. fold (main_trace root_dir).
  destruct (main_trace root_dir). reflexivity.
Qed.

Lemma main_status root_dir output_file :
  (main root_dir output_file).1 = (main_trace root_dir).1.
Proof. rewrite main_unfold. reflexivity. Qed.

Lemma trace_of_returning_run root_dir :
  (main_trace root_dir).1 = Some () →
  Forall readable (included root_dir) ∧
  (main_trace root_dir).2 = included root_dir ≫= chunks_of.
Proof.
  rewrite main_trace_process. intros Hret.
  apply process_returns_iff in Hret. split; [assumption|].
  rewrite process_readable by assumption. reflexivity.
Qed.

(** ** Suffixes of strings *)
Section Strings.

Lemma app_cons c (a b : string) : String c a +:+ b = String c (a +:+ b).
Proof. reflexivity. Qed.

Lemma str_app_nil_r (a : string) : a +:+ "" = a.
Proof. induction a as [|c a IH]; [reflexivity|]. rewrite app_cons, IH. reflexivity. Qed.

Lemma str_app_assoc (a b c : string) : (a +:+ b) +:+ c = a +:+ (b +:+ c).
Proof.
  induction a as [|x a IH]; [reflexivity|]. rewrite !app_cons, IH. reflexivity.
Qed.

Lemma str_length_app (a b : string) :
  String.length (a +:+ b) = String.length a + String.length b.
Proof.
  induction a as [|x a IH]; [reflexivity|].
  rewrite app_cons. cbn [String.length]. rewrite IH. reflexivity.
Qed.

Lemma substring_all (b : string) : substring 0 (String.length b) b = b.
Proof. induction b as [|x b IH]; [reflexivity|]. cbn. rewrite IH. reflexivity. Qed.

Lemma substring_skip (a b : string) k :
  substring (String.length a) k (a +:+ b) = substring 0 k b.
Proof. induction a as [|x a IH]; [reflexivity|]. rewrite app_cons. cbn. exact IH. Qed.

Lemma substring_split (s : string) n :
  (n ≤ String.length s)%nat →
  substring 0 n s +:+ substring n (String.length s - n) s = s.
Proof.
  revert n. induction s as [|x s IH]; intros [|n] Hn; cbn in Hn.
  - reflexivity.
  - lia.
  - replace (String.length (String x s) - 0) with (String.length (String x s)) by lia.
    rewrite substring_all. reflexivity.
  - cbn [substring String.length]. rewrite app_cons.
    replace (S (String.length s) - S n) with (String.length s - n) by lia.
    rewrite IH by lia. reflexivity.
Qed.

(** [endswith] is the literal suffix test. *)
Lemma endswith_spec (s suffix : string) :
  endswith s suffix = true ↔ ∃ stem, s = stem +:+ suffix.
Proof.
  unfold endswith. split.
  - destruct (decide _) as [Hle|]; [|discriminate].
    intros Heq%bool_decide_eq_true_1.
    exists (substring 0 (String.length s - String.length suffix) s).
    pose proof (substring_split s (String.length s - String.length suffix)) as Hs.
    replace (String.length s - (String.length s - String.length suffix))
      with (String.length suffix) in Hs by lia.
    rewrite Heq in Hs. symmetry. apply Hs. lia.
  - intros [stem ->]. rewrite str_length_app.
    rewrite decide_True by lia. apply bool_decide_eq_true_2.
    replace (String.length stem + String.length suffix - String.length suffix)
      with (String.length stem) by lia.
    rewrite substring_skip. apply substring_all.
Qed.

Lemma existsb_elements (X : gset string) (p : string → bool) :
  existsb p (elements X) = true ↔ ∃ x, x ∈ X ∧ p x = true.
Proof.
  rewrite existsb_exists. split; intros (x & Hx & Hp); exists x; split;
    try assumption.
  - apply elem_of_elements, list_elem_of_In. exact Hx.
  - apply list_elem_of_In, elem_of_elements. exact Hx.
Qed.

Lemma should_include_file_false (filename : string) :
  should_include_file filename = false ↔
  ∃ ext stem, ext ∈ EXCLUDE_EXTS ∧ filename = stem +:+ ext.
Proof.
  unfold should_include_file.
  rewrite negb_false_iff, (existsb_elements EXCLUDE_EXTS). split.
  - intros (ext & Hin & Hends).
    apply endswith_spec in Hends as [stem ->]. exists ext, stem.
    split; [exact Hin | reflexivity].
  - intros (ext & stem & Hin & ->). exists ext. split; [exact Hin|].
    apply endswith_spec. exists stem. reflexivity.
Qed.

End Strings.

(** ** The content of the output file *)
Section Layout.

Lemma concat_cons (x : string) (xs : list string) :
  String.concat "" (x :: xs) = x +:+ String.concat "" xs.
Proof.
  destruct xs as [|y ys]; cbn [String.concat].
  - rewrite str_app_nil_r. reflexivity.
  - reflexivity.
Qed.

Lemma concat_app (l1 l2 : list string) :
  String.concat "" (l1 ++ l2) = String.concat "" l1 +:+ String.concat "" l2.
Proof.
  induction l1 as [|x l1 IH]; [reflexivity|].
  rewrite <-app_comm_cons, !concat_cons, IH, str_app_assoc. reflexivity.
Qed.

Lemma file_content_app (l1 l2 : list chunk) :
  file_content (l1 ++ l2) = file_content l1 +:+ file_content l2.
Proof. unfold file_content. rewrite fmap_app. apply concat_app. Qed.

Lemma file_content_cons (c : chunk) (l : list chunk) :
  file_content (c :: l) = render c +:+ file_content l.
Proof. unfold file_content. rewrite fmap_cons. apply concat_cons. Qed.

Lemma file_content_records (recs : list (path * string)) :
  file_content (recs ≫= record_chunks) = String.concat "" (record_text <$> recs).
Proof.
  induction recs as [|[p c] recs IH]; [reflexivity|].
  rewrite bind_cons, fmap_cons, concat_cons, file_content_app, IH.
  unfold record_chunks, record_text. cbn [fst snd].
  rewrite !file_content_cons. cbn [render].
  unfold file_content. cbn [fmap list_fmap String.concat].
  rewrite str_app_nil_r, str_app_assoc. reflexivity.
Qed.

Lemma main_content root_dir output_file :
  (main root_dir output_file).2 = Some (file_content (main_trace root_dir).2).
Proof. rewrite main_unfold. reflexivity. Qed.

(** The record of a file that opens. *)
Lemma chunks_of_readable (fs : list item) :
  Forall readable fs →
  ∃ recs : list (path * string),
    fs ≫= chunks_of = recs ≫= record_chunks ∧
    Forall2 (fun (f : item) (r : path * string) =>
               ∃ raw, f.2 = Some raw ∧
                      r = (os_path_join f.1.1 f.1.2, Codec.read_text raw))
            fs recs.
Proof.
  induction 1 as [|[[dp n] d] fs [raw Hraw] _ (recs & Heq & Hall)].
  - exists []. split; [reflexivity | constructor].
  - cbn [snd] in Hraw. subst d.
    exists ((os_path_join dp n, Codec.read_text raw) :: recs). split.
    + rewrite !bind_cons, Heq. reflexivity.
    + constructor; [|assumption]. exists raw. split; reflexivity.
Qed.

End Layout.

Lemma records_are_files root_dir (fs : list item) (recs : list (path * string)) :
  (∀ f, f ∈ fs → f ∈ included root_dir) →
  Forall2 (fun (f : item) (r : path * string) =>
             ∃ raw, f.2 = Some raw ∧
                    r = (os_path_join f.1.1 f.1.2, Codec.read_text raw))
          fs recs →
  Forall (fun r : path * string =>
            ∃ dirs name raw,
              r = (os_path_join dirs name, Codec.read_text raw) ∧
              file_at root_dir dirs name (Some raw)) recs.
Proof.
  intros Hsub Hall. induction Hall as [|[[dp n] d] r fs recs (raw & Hd & Hr) _ IH].
  - constructor.
  - cbn [fst snd] in Hd, Hr. subst d r. constructor.
    + exists dp, n, raw. split; [reflexivity|].
      apply (included_iff root_dir dp n (Some raw)), Hsub. left.
    + apply IH. intros f Hf. apply Hsub. right. exact Hf.
Qed.

Example layout_example :
  main (Some [Dir "src" (Some [File "b.py" (py "B")]); File "a.py" (py "A")]) None
  = (Some (),
     Some (String.concat "" (record_text <$> [(["a.py"], "A"); (["src"; "b.py"], "B")]))).
Proof. vm_compute. reflexivity. Qed.

(** ** Distinct names give distinct paths *)
Section Distinct.

Lemma forallb_elem {A} (f : A → bool) (l : list A) (x : A) :
  forallb f l = true → x ∈ l → f x = true.
Proof.
  intros H Hx. rewrite forallb_forall in H. apply H, list_elem_of_In, Hx.
Qed.

Lemma files_below_head e (f : item) :
  f ∈ files_below e → head_name f.1 = entry_name e.
Proof.
  destruct e as [n d|n [sub|]]; cbn [files_below entry_name].
  - intros ->%list_elem_of_singleton. reflexivity.
  - intros ([[ds m] d] & -> & _)%list_elem_of_fmap. reflexivity.
  - intros H. apply elem_of_nil in H. contradiction.
Qed.

Lemma nodup_all_files listing :
  NoDup (entry_name <$> listing) →
  Forall (fun e => NoDup (fst <$> files_below e)) listing →
  NoDup (fst <$> all_files listing).
Proof.
  unfold all_files.
  induction listing as [|e listing IH]; intros Hnames Hall; [constructor|].
  rewrite fmap_cons in Hnames. apply NoDup_cons in Hnames as [Hfresh Hnames].
  apply Forall_cons in Hall as [He Hall].
  rewrite bind_cons, fmap_app. apply NoDup_app. split; [exact He|]. split.
  - intros k (f & -> & Hf)%list_elem_of_fmap (f' & Heq & Hf')%list_elem_of_fmap.
    apply list_elem_of_bind in Hf' as (e' & Hf' & He').
    apply files_below_head in Hf, Hf'. apply Hfresh.
    rewrite <-Hf, Heq, Hf'. apply list_elem_of_fmap. exists e'. tauto.
  - apply IH; assumption.
Qed.

Lemma nodup_files_below e :
  distinct_names_in e = true → NoDup (fst <$> files_below e).
Proof.
  induction e as [n d|n|n sub IH] using entry_ind;
    cbn [files_below distinct_names_in].
  - intros _. apply NoDup_singleton.
  - intros _. constructor.
  - intros [Hnames Hsub]%andb_true_iff.
    apply bool_decide_eq_true_1 in Hnames.
    assert (Heq :
      fst <$> ((fun f : item => (n :: f.1.1, f.1.2, f.2)) <$> (sub ≫= files_below))
      = (fun k : path * string => (n :: k.1, k.2)) <$> (fst <$> (sub ≫= files_below))).
    { rewrite <-!list_fmap_compose. apply list_fmap_ext.
      intros i [[ds m] d] _. reflexivity. }
    rewrite Heq. apply NoDup_fmap_2.
    { intros [ds1 m1] [ds2 m2] Hk. cbn in Hk. congruence. }
    apply nodup_all_files; [exact Hnames|].
    apply Forall_forall. intros e He.
    rewrite Forall_forall in IH. apply (IH e He).
    exact (forallb_elem _ _ _ Hsub He).
Qed.

Lemma nodup_included root_dir :
  distinct_names root_dir = true → NoDup (fst <$> included root_dir).
Proof.
  destruct root_dir as [listing|]; cbn [distinct_names]; [|intros _; constructor].
  intros [Hnames Hsub]%andb_true_iff. apply bool_decide_eq_true_1 in Hnames.
  rewrite included_visible.
  apply (sublist_NoDup _ (fst <$> all_files listing)).
  - apply nodup_all_files; [exact Hnames|].
    apply Forall_forall. intros e He. apply nodup_files_below.
    exact (forallb_elem _ _ _ Hsub He).
  - apply fmap_sublist, sublist_filter.
Qed.

Lemma header_not_in_chunks (fs : list item) dirs name :
  (dirs, name) ∉ fst <$> fs →
  Header (os_path_join dirs name) ∉ fs ≫= chunks_of.
Proof.
  intros Hfresh Hin.
  apply header_in_chunks in Hin as (ds & m & d & Heq & Hin).
  apply os_path_join_inj in Heq as [<- <-].
  apply Hfresh, list_elem_of_fmap. exists (dirs, name, d). tauto.
Qed.

End Distinct.

(** ** Decoding keeps what is valid *)
Section Decoding.

Lemma N_of_ascii_of_byte (b : byte) : N_of_ascii (ascii_of_byte b) = Byte.to_N b.
Proof.
  rewrite ascii_of_byte_via_N. apply N_ascii_embedding.
  pose proof (Byte.to_N_bounded b). lia.
Qed.

Lemma plain_cons c s :
  plain (String c s) = if is_plain c then String c (plain s) else plain s.
Proof. reflexivity. Qed.

Lemma plain_high (b : byte) (s : string) :
  (128 ≤ Byte.to_N b)%N → plain (String (ascii_of_byte b) s) = plain s.
Proof.
  intros Hb. rewrite plain_cons. unfold is_plain.
  rewrite N_of_ascii_of_byte.
  destruct (N.ltb_spec (Byte.to_N b) 128) as [Hlt|_]; [lia | reflexivity].
Qed.

Lemma is_continuation_high (b : byte) :
  Codec.is_continuation b = true → (128 ≤ Byte.to_N b)%N.
Proof.
  unfold Codec.is_continuation. intros [H _]%andb_true_iff.
  apply N.leb_le in H. exact H.
Qed.

Lemma second_of_3_high (b1 b2 : byte) :
  Codec.second_of_3 b1 b2 = true → (128 ≤ Byte.to_N b2)%N.
Proof.
  unfold Codec.second_of_3. intros [H _]%andb_true_iff.
  apply is_continuation_high, H.
Qed.

Lemma second_of_4_high (b1 b2 : byte) :
  Codec.second_of_4 b1 b2 = true → (128 ≤ Byte.to_N b2)%N.
Proof.
  unfold Codec.second_of_4. intros [H _]%andb_true_iff.
  apply is_continuation_high, H.
Qed.

Lemma emit_cons (b : byte) (bs : list byte) (rest : string) :
  Codec.emit (b :: bs) rest = String (ascii_of_byte b) (Codec.emit bs rest).
Proof. reflexivity. Qed.

Lemma emit_nil (rest : string) : Codec.emit [] rest = rest.
Proof. reflexivity. Qed.

Lemma string_of_list_byte_cons (b : byte) (bs : list byte) :
  string_of_list_byte (b :: bs) = String (ascii_of_byte b) (string_of_list_byte bs).
Proof. reflexivity. Qed.

Lemma utf8_ignore_cons (b1 : byte) (r1 : list byte) :
  Codec.utf8_ignore (b1 :: r1) =
  if (Byte.to_N b1 <? 128)%N then Codec.emit [b1] (Codec.utf8_ignore r1)
  else if (Byte.to_N b1 <? 194)%N then Codec.utf8_ignore r1
  else if (Byte.to_N b1 <? 224)%N then
    match r1 with
    | [] => ""
    | b2 :: r2 =>
      if Codec.is_continuation b2
      then Codec.emit [b1; b2] (Codec.utf8_ignore r2)
      else Codec.utf8_ignore r1
    end
  else if (Byte.to_N b1 <? 240)%N then
    match r1 with
    | [] => ""
    | b2 :: r2 =>
      if Codec.second_of_3 b1 b2 then
        match r2 with
        | [] => ""
        | b3 :: r3 =>
          if Codec.is_continuation b3
          then Codec.emit [b1; b2; b3] (Codec.utf8_ignore r3)
          else Codec.utf8_ignore r2
        end
      else Codec.utf8_ignore r1
    end
  else if (Byte.to_N b1 <? 245)%N then
    match r1 with
    | [] => ""
    | b2 :: r2 =>
      if Codec.second_of_4 b1 b2 then
        match r2 with
        | [] => ""
        | b3 :: r3 =>
          if Codec.is_continuation b3 then
            match r3 with
            | [] => ""
            | b4 :: r4 =>
              if Codec.is_continuation b4
              then Codec.emit [b1; b2; b3; b4] (Codec.utf8_ignore r4)
              else Codec.utf8_ignore r3
            end
          else Codec.utf8_ignore r2
        end
      else Codec.utf8_ignore r1
    end
  else Codec.utf8_ignore r1.
Proof. destruct r1 as [|b2 [|b3 [|b4 r4]]]; reflexivity. Qed.

Ltac drop_high :=
  repeat first
    [ rewrite emit_cons | rewrite emit_nil | rewrite string_of_list_byte_cons
    | rewrite plain_high by
        (first [ assumption
               | apply is_continuation_high; assumption
               | eapply second_of_3_high; eassumption
               | eapply second_of_4_high; eassumption ]) ].

Lemma plain_utf8_ignore_bounded (n : nat) :
  ∀ bs : list byte,
    (length bs ≤ n)%nat →
    plain (Codec.utf8_ignore bs) = plain (string_of_list_byte bs).
Proof.
  induction n as [|n IH]; intros [|b1 r1] Hlen; try reflexivity;
    cbn [length] in Hlen; [lia|].
  assert (IH' : ∀ bs : list byte, (length bs ≤ length r1)%nat →
                  plain (Codec.utf8_ignore bs) = plain (string_of_list_byte bs))
    by (intros bs Hbs; apply IH; lia).
  clear IH Hlen. rewrite utf8_ignore_cons.
  destruct (N.ltb_spec (Byte.to_N b1) 128) as [Hlow|Hhigh].
  { rewrite emit_cons, emit_nil, string_of_list_byte_cons, !plain_cons.
    rewrite IH' by lia. reflexivity. }
  destruct (Byte.to_N b1 <? 194)%N; [drop_high; apply IH'; lia|].
  destruct (Byte.to_N b1 <? 224)%N.
  { destruct r1 as [|b2 r2]; [drop_high; reflexivity|].
    destruct (Codec.is_continuation b2) eqn:H2; drop_high;
      apply IH'; cbn [length]; lia. }
  destruct (Byte.to_N b1 <? 240)%N.
  { destruct r1 as [|b2 r2]; [drop_high; reflexivity|].
    destruct (Codec.second_of_3 b1 b2) eqn:H2;
      [|drop_high; apply IH'; cbn [length]; lia].
    destruct r2 as [|b3 r3]; [drop_high; reflexivity|].
    destruct (Codec.is_continuation b3) eqn:H3; drop_high;
      apply IH'; cbn [length]; lia. }
  destruct (Byte.to_N b1 <? 245)%N; [|drop_high; apply IH'; lia].
  destruct r1 as [|b2 r2]; [drop_high; reflexivity|].
  destruct (Codec.second_of_4 b1 b2) eqn:H2;
    [|drop_high; apply IH'; cbn [length]; lia].
  destruct r2 as [|b3 r3]; [drop_high; reflexivity|].
  destruct (Codec.is_continuation b3) eqn:H3;
    [|drop_high; apply IH'; cbn [length]; lia].
  destruct r3 as [|b4 r4]; [drop_high; reflexivity|].
  destruct (Codec.is_continuation b4) eqn:H4; drop_high;
    apply IH'; cbn [length]; lia.
Qed.

Lemma plain_utf8_ignore (bs : list byte) :
  plain (Codec.utf8_ignore bs) = plain (string_of_list_byte bs).
Proof. apply (plain_utf8_ignore_bounded (length bs)). lia. Qed.

End Decoding.

Section Resynchronise.

Lemma boundary_second_of_3 b1 b a :
  boundary (b :: a) → Codec.second_of_3 b1 b = false.
Proof. cbn. intros Hb. unfold Codec.second_of_3. rewrite Hb. reflexivity. Qed.

Lemma boundary_second_of_4 b1 b a :
  boundary (b :: a) → Codec.second_of_4 b1 b = false.
Proof. cbn. intros Hb. unfold Codec.second_of_4. rewrite Hb. reflexivity. Qed.

Lemma emit_app (bs : list byte) (x y : string) :
  Codec.emit bs x +:+ y = Codec.emit bs (x +:+ y).
Proof. unfold Codec.emit. apply str_app_assoc. Qed.

(** At a boundary nothing of what precedes changes how the rest is
    decoded, and nothing of the rest changes how what precedes is. *)
Lemma utf8_ignore_app_bounded (n : nat) :
  ∀ j a : list byte,
    (length j ≤ n)%nat → boundary a →
    Codec.utf8_ignore (j ++ a) = Codec.utf8_ignore j +:+ Codec.utf8_ignore a.
Proof.
  induction n as [|n IH]; intros [|b1 r1] a Hlen Ha; try reflexivity;
    cbn [length] in Hlen; [lia|].
  assert (IH' : ∀ j : list byte, (length j ≤ length r1)%nat →
            Codec.utf8_ignore (j ++ a) =
            Codec.utf8_ignore j +:+ Codec.utf8_ignore a)
    by (intros j Hj; apply IH; [lia | exact Ha]).
  clear IH Hlen. rewrite <-app_comm_cons, !utf8_ignore_cons.
  destruct (Byte.to_N b1 <? 128)%N; [rewrite emit_app, IH' by lia; reflexivity|].
  destruct (Byte.to_N b1 <? 194)%N; [apply IH'; lia|].
  destruct (Byte.to_N b1 <? 224)%N.
  { destruct r1 as [|b2 r2].
    - destruct a as [|b a']; [reflexivity|]. cbn [app].
      cbn in Ha. rewrite Ha. reflexivity.
    - rewrite <-app_comm_cons.
      destruct (Codec.is_continuation b2).
      + rewrite emit_app, IH' by (cbn [length]; lia). reflexivity.
      + rewrite app_comm_cons. apply IH'. lia. }
  destruct (Byte.to_N b1 <? 240)%N.
  { destruct r1 as [|b2 r2].
    - destruct a as [|b a']; [reflexivity|]. cbn [app].
      rewrite (boundary_second_of_3 b1 b a' Ha). reflexivity.
    - rewrite <-app_comm_cons.
      destruct (Codec.second_of_3 b1 b2);
        [|rewrite app_comm_cons; apply IH'; lia].
      destruct r2 as [|b3 r3].
      + destruct a as [|b a']; [reflexivity|]. cbn [app].
        cbn in Ha. rewrite Ha. apply (IH' []). cbn [length]. lia.
      + rewrite <-app_comm_cons.
        destruct (Codec.is_continuation b3).
        * rewrite emit_app, IH' by (cbn [length]; lia). reflexivity.
        * rewrite app_comm_cons. apply IH'. cbn [length]. lia. }
  destruct (Byte.to_N b1 <? 245)%N; [|apply IH'; lia].
  destruct r1 as [|b2 r2].
  - destruct a as [|b a']; [reflexivity|]. cbn [app].
    rewrite (boundary_second_of_4 b1 b a' Ha). reflexivity.
  - rewrite <-app_comm_cons.
    destruct (Codec.second_of_4 b1 b2);
      [|rewrite app_comm_cons; apply IH'; lia].
    destruct r2 as [|b3 r3].
    + destruct a as [|b a']; [reflexivity|]. cbn [app].
      cbn in Ha. rewrite Ha. apply (IH' []). cbn [length]. lia.
    + rewrite <-app_comm_cons.
      destruct (Codec.is_continuation b3);
        [|rewrite app_comm_cons; apply IH'; cbn [length]; lia].
      destruct r3 as [|b4 r4].
      * destruct a as [|b a']; [reflexivity|]. cbn [app].
        cbn in Ha. rewrite Ha. apply (IH' []). cbn [length]. lia.
      * rewrite <-app_comm_cons.
        destruct (Codec.is_continuation b4).
        -- rewrite emit_app, IH' by (cbn [length]; lia). reflexivity.
        -- rewrite app_comm_cons. apply IH'. cbn [length]. lia.
Qed.

Lemma utf8_ignore_app (j a : list byte) :
  boundary a →
  Codec.utf8_ignore (j ++ a) = Codec.utf8_ignore j +:+ Codec.utf8_ignore a.
Proof. apply (utf8_ignore_app_bounded (length j)). lia. Qed.

End Resynchronise.

Section Newlines.

Lemma universal_newlines_cons c r :
  Codec.universal_newlines (String c r) =
  if decide (c = CR) then
    match r with
    | String c' r' =>
      if decide (c' = LF) then String LF (Codec.universal_newlines r')
      else String LF (Codec.universal_newlines r)
    | "" => String LF ""
    end
  else String c (Codec.universal_newlines r).
Proof. destruct r; reflexivity. Qed.

Lemma plain_LF s : plain (String LF s) = plain s.
Proof. reflexivity. Qed.

Lemma plain_CR s : plain (String CR s) = plain s.
Proof. reflexivity. Qed.

Lemma plain_universal_newlines_bounded (n : nat) :
  ∀ s : string,
    (String.length s ≤ n)%nat →
    plain (Codec.universal_newlines s) = plain s.
Proof.
  induction n as [|n IH]; intros [|c r] Hlen; try reflexivity;
    cbn [String.length] in Hlen; [lia|].
  rewrite universal_newlines_cons.
  destruct (decide (c = CR)) as [->|Hc].
  - rewrite plain_CR. destruct r as [|c' r'].
    + reflexivity.
    + cbn [String.length] in Hlen.
      destruct (decide (c' = LF)) as [->|Hc']; rewrite !plain_LF.
      * apply IH. lia.
      * apply IH. cbn [String.length]. lia.
  - rewrite !plain_cons. rewrite IH by lia. reflexivity.
Qed.

(** Every ASCII character of a file other than its line endings is in the
    text read from it, in the same order. *)
Lemma read_text_keeps_plain (raw : list byte) :
  plain (Codec.read_text raw) = plain (string_of_list_byte raw).
Proof.
  unfold Codec.read_text.
  rewrite (plain_universal_newlines_bounded _ _ (Nat.le_refl _)).
  apply plain_utf8_ignore.
Qed.

End Newlines.

(** ** What lies beneath an excluded directory is not read *)
Section Agree.

Lemma agree_names l1 l2 :
  Forall2 agree l1 l2 → dirnames l1 = dirnames l2 ∧ filenames l1 = filenames l2.
Proof.
  unfold dirnames, filenames.
  induction 1 as [|e1 e2 l1 l2 He _ [IHd IHf]]; [split; reflexivity|].
  inversion He; subst; cbn [omap list_omap]; rewrite ?IHd, ?IHf;
    split; reflexivity.
Qed.

Lemma agree_descend e1 :
  ∀ e2 top dirs,
    agree e1 e2 →
    (∀ n, n ∈ dirs → n ∉ EXCLUDE_DIRS) →
    descend prune top dirs e1 = descend prune top dirs e2.
Proof.
  induction e1 as [n d|n|n sub IH] using entry_ind;
    intros e2 top dirs Hagree Hdirs;
    inversion Hagree as [n' d'|n' l1 l2 Hex|n'|n' s1 sub2 Hsub]; subst;
    try reflexivity.
  - destruct l2 as [sub2|]; [|reflexivity]. cbn [descend].
    rewrite bool_decide_eq_false_2; [reflexivity|].
    intros Hn. exact (Hdirs _ Hn Hex).
  - destruct l2 as [sub2|]; cbn [descend];
      (rewrite bool_decide_eq_false_2; [reflexivity|]);
      intros Hn; exact (Hdirs _ Hn Hex).
  - cbn [descend]. destruct (bool_decide (n ∈ dirs)); [|reflexivity].
    destruct (agree_names _ _ Hsub) as [-> ->]. f_equal.
    assert (Hprune : ∀ m, m ∈ prune (dirnames sub2) → m ∉ EXCLUDE_DIRS)
      by (intros m Hm; apply prune_elem in Hm; tauto).
    revert Hprune. generalize (prune (dirnames sub2)) (os_path_join top n).
    intros dirs' top' Hprune. clear Hagree.
    induction Hsub as [|a b sub1' sub2' Hab _ IHsub]; [reflexivity|].
    apply Forall_cons in IH as [IHa IH].
    rewrite !bind_cons, (IHa b top' dirs' Hab Hprune), (IHsub IH).
    reflexivity.
Qed.

Lemma agree_os_walk top l1 l2 :
  Forall2 agree l1 l2 → os_walk prune top l1 = os_walk prune top l2.
Proof.
  intros Hagree. unfold os_walk.
  destruct (agree_names _ _ Hagree) as [-> ->]. f_equal.
  assert (Hprune : ∀ m, m ∈ prune (dirnames l2) → m ∉ EXCLUDE_DIRS)
    by (intros m Hm; apply prune_elem in Hm; tauto).
  revert Hprune. generalize (prune (dirnames l2)). intros dirs Hprune.
  induction Hagree as [|a b l1 l2 Hab _ IH]; [reflexivity|].
  rewrite !bind_cons, (agree_descend a b top dirs Hab Hprune), IH.
  reflexivity.
Qed.

End Agree.

(** ** The excluded extensions *)
Section Extensions.

Lemma exclude_exts_cases (ext : string) :
  ext ∈ EXCLUDE_EXTS → ext = ".json" ∨ ext = ".pdf" ∨ ext = ".txt".
Proof.
  unfold EXCLUDE_EXTS. rewrite !elem_of_union, !elem_of_singleton. tauto.
Qed.

Lemma exclude_exts_length (ext : string) :
  ext ∈ EXCLUDE_EXTS → (4 ≤ String.length ext ≤ 5)%nat.
Proof.
  intros [->| [->| ->]]%exclude_exts_cases; cbn; lia.
Qed.

(** Two ways of cutting one string: the shorter tail is a tail of the
    longer one. *)
Lemma app_eq_tail (a b c d : string) :
  a +:+ b = c +:+ d →
  (String.length d ≤ String.length b)%nat →
  ∃ e, b = e +:+ d.
Proof.
  revert c. induction a as [|x a IH]; intros c Heq Hlen.
  - exists c. exact Heq.
  - destruct c as [|y c].
    + exfalso. apply (f_equal String.length) in Heq.
      rewrite app_cons in Heq. cbn [String.length] in Heq.
      rewrite str_length_app in Heq. change ("" +:+ d) with d in Heq. lia.
    + rewrite !app_cons in Heq. injection Heq as _ Heq.
      exact (IH c Heq Hlen).
Qed.

End Extensions.

(** ** The walk of a directory is made of the walks of its subdirectories *)
Section Compose.

Lemma shift_shift top n (v : visit) :
  shift top (shift [n] v) = shift (os_path_join top n) v.
Proof.
  destruct v as [[dp ds] fs]. unfold shift, os_path_join. cbn [fst snd].
  rewrite <-app_assoc. reflexivity.
Qed.

Lemma shift_nil (v : visit) : shift [] v = v.
Proof. destruct v as [[dp ds] fs]. reflexivity. Qed.

Lemma descend_shift e :
  ∀ top dirs,
    descend prune top dirs e = shift top <$> descend prune [] dirs e.
Proof.
  induction e as [n d|n|n sub IH] using entry_ind; intros top dirs;
    cbn [descend]; try reflexivity.
  destruct (bool_decide (n ∈ dirs)); [|reflexivity].
  rewrite fmap_cons. f_equal.
  rewrite fmap_bind_list. apply Forall_bind_ext.
  apply Forall_forall. intros e He. rewrite Forall_forall in IH.
  rewrite (IH e He (os_path_join top n)), (IH e He (os_path_join [] n)).
  rewrite <-list_fmap_compose. apply list_fmap_ext.
  intros i v _. cbn. symmetry. apply shift_shift.
Qed.

Lemma os_walk_shift top listing :
  os_walk prune top listing = shift top <$> os_walk prune [] listing.
Proof.
  unfold os_walk. rewrite fmap_cons. f_equal.
  - unfold shift. cbn [fst snd]. rewrite app_nil_r. reflexivity.
  - rewrite fmap_bind_list. apply Forall_bind_ext.
    apply Forall_forall. intros e _. apply descend_shift.
Qed.

Lemma included_in_shift top (v : visit) :
  included_in (shift top v) = under top <$> included_in v.
Proof.
  destruct v as [[dp ds] fs]. unfold included_in, shift. cbn [fst snd].
  rewrite <-list_fmap_compose. apply list_fmap_ext. intros i [n d] _.
  reflexivity.
Qed.

Lemma included_shift top listing :
  os_walk prune top listing ≫= included_in
  = under top <$> included (Some listing).
Proof.
  unfold included, os_walk_root. rewrite os_walk_shift, list_fmap_bind.
  rewrite fmap_bind_list. apply Forall_bind_ext.
  apply Forall_forall. intros v _. apply included_in_shift.
Qed.

(** The files reached in a directory: its own, then those of each of its
    subdirectories in turn. *)
Lemma included_unfold listing :
  included (Some listing) = own_files listing ++ (listing ≫= included_below).
Proof.
  unfold included at 1, os_walk_root, os_walk, own_files.
  rewrite bind_cons, included_in_here, bind_bind. f_equal.
  apply Forall_bind_ext, Forall_forall. intros e He.
  destruct e as [n d|n [sub|]]; cbn [descend included_below]; try reflexivity.
  destruct (decide (n ∈ EXCLUDE_DIRS)) as [Hn|Hn].
  - rewrite bool_decide_eq_false_2; [reflexivity|].
    intros Hin. apply prune_elem in Hin. tauto.
  - rewrite bool_decide_eq_true_2.
    + apply (included_shift (os_path_join [] n) sub).
    + apply prune_elem. split; [|exact Hn].
      apply dirnames_elem. eexists. exact He.
Qed.

Lemma chunks_of_under n (fs : list item) :
  (under [n] <$> fs) ≫= chunks_of = push n <$> (fs ≫= chunks_of).
Proof.
  rewrite list_fmap_bind, fmap_bind_list. apply Forall_bind_ext.
  apply Forall_forall. intros [[dp m] [raw|]] _; reflexivity.
Qed.

End Compose.

(** ** Headers and the part of the tree that matters *)
Section Relevant.

Lemma headers_app (l1 l2 : list chunk) : headers (l1 ++ l2) = headers l1 ++ headers l2.
Proof. unfold headers. apply omap_app. Qed.

Lemma headers_chunks (fs : list item) :
  headers (fs ≫= chunks_of) = path_of <$> fs.
Proof.
  induction fs as [|[[dp n] d] fs IH]; [reflexivity|].
  rewrite bind_cons, headers_app, fmap_cons, IH.
  destruct d; reflexivity.
Qed.

Lemma length_chunks_readable (fs : list item) :
  Forall readable fs → length (fs ≫= chunks_of) = 2 * length fs.
Proof.
  induction 1 as [|[[dp n] d] fs [raw Hraw] _ IH]; [reflexivity|].
  cbn [snd] in Hraw. subst d.
  rewrite bind_cons, length_app, IH. unfold chunks_of.
  cbn [fst snd length]. lia.
Qed.

Lemma readable_under top (fs : list item) :
  Forall readable (under top <$> fs) → Forall readable fs.
Proof.
  rewrite Forall_fmap. intros H. apply (Forall_impl _ _ _ H).
  intros [[dp n] d] Hr. exact Hr.
Qed.

Lemma strip_entry_ok e :
  strip e ≫= here_of [] = here_of [] e ∧
  strip e ≫= included_below = included_below e.
Proof.
  induction e as [n d|n|n sub IH] using entry_ind; cbn [strip].
  - cbn [here_of included_below].
    destruct (should_include_file n) eqn:Hn.
    + rewrite !bind_singleton. cbn [here_of included_below].
      rewrite Hn. split; reflexivity.
    + split; reflexivity.
  - split; reflexivity.
  - cbn [here_of included_below].
    destruct (decide (n ∈ EXCLUDE_DIRS)) as [Hn|Hn]; [split; reflexivity|].
    rewrite !bind_singleton. cbn [here_of included_below].
    rewrite decide_False by exact Hn. split; [reflexivity|]. f_equal.
    rewrite !included_unfold. unfold own_files. rewrite !bind_bind.
    f_equal; apply Forall_bind_ext; apply (Forall_impl _ _ _ IH); tauto.
Qed.

Lemma included_strip listing :
  included (Some (listing ≫= strip)) = included (Some listing).
Proof.
  rewrite !included_unfold. unfold own_files. rewrite !bind_bind.
  f_equal; apply Forall_bind_ext, Forall_forall; intros e _;
    apply strip_entry_ok.
Qed.

Lemma trace_starts_with_header (fs : list item) :
  fs ≠ [] → ∃ p log, (process fs).2 = Header p :: log.
Proof.
  destruct fs as [|[[dp n] [raw|]] fs]; [congruence| |]; intros _; cbn [process].
  - destruct (process fs) as [r log]. eauto.
  - eauto.
Qed.

Lemma header_not_empty (rel_path : string) : header rel_path ≠ "".
Proof. unfold header, nl. rewrite app_cons. discriminate. Qed.

End Relevant.

(** ** Plain text is read as it is *)
Section PlainText.

Lemma ascii_of_byte_CR (b : byte) : ascii_of_byte b = CR → b = x0d.
Proof.
  intros H. apply (f_equal byte_of_ascii) in H.
  rewrite byte_of_ascii_of_byte in H. exact H.
Qed.

Lemma utf8_ignore_ascii (raw : list byte) :
  ascii_text raw = true → Codec.utf8_ignore raw = string_of_list_byte raw.
Proof.
  induction raw as [|b raw IH]; [reflexivity|]. cbn [ascii_text forallb].
  intros [[Hb _]%andb_true_iff Hraw]%andb_true_iff.
  rewrite utf8_ignore_cons, Hb, emit_cons, emit_nil, string_of_list_byte_cons.
  rewrite (IH Hraw). reflexivity.
Qed.

Lemma universal_newlines_ascii (raw : list byte) :
  ascii_text raw = true →
  Codec.universal_newlines (string_of_list_byte raw) = string_of_list_byte raw.
Proof.
  induction raw as [|b raw IH]; [reflexivity|]. cbn [ascii_text forallb].
  intros [[_ Hb]%andb_true_iff Hraw]%andb_true_iff.
  rewrite string_of_list_byte_cons, universal_newlines_cons.
  destruct (decide (ascii_of_byte b = CR)) as [Hcr|_].
  - apply ascii_of_byte_CR in Hcr. subst b. discriminate.
  - rewrite (IH Hraw). reflexivity.
Qed.

Lemma read_text_ascii (raw : list byte) :
  ascii_text raw = true → Codec.read_text raw = string_of_list_byte raw.
Proof.
  intros H. unfold Codec.read_text.
  rewrite (utf8_ignore_ascii _ H). apply universal_newlines_ascii, H.
Qed.

Lemma bytes_of_app (a b : string) : bytes_of (a +:+ b) = bytes_of a ++ bytes_of b.
Proof.
  induction a as [|c a IH]; [reflexivity|].
  rewrite app_cons. unfold bytes_of, list_byte_of_string in *.
  cbn [list_ascii_of_string map]. rewrite IH. reflexivity.
Qed.

Lemma ascii_text_app (a b : list byte) :
  ascii_text (a ++ b) = ascii_text a && ascii_text b.
Proof. apply forallb_app. Qed.

Lemma occurs_CR_LF s : occurs CR (String LF s) = occurs CR s.
Proof. reflexivity. Qed.

Lemma no_carriage_return_bounded (n : nat) :
  ∀ s : string,
    (String.length s ≤ n)%nat →
    occurs CR (Codec.universal_newlines s) = false.
Proof.
  induction n as [|n IH]; intros [|c r] Hlen; try reflexivity;
    cbn [String.length] in Hlen; [lia|].
  rewrite universal_newlines_cons.
  destruct (decide (c = CR)) as [->|Hc].
  - destruct r as [|c' r']; [reflexivity|].
    cbn [String.length] in Hlen.
    destruct (decide (c' = LF)); rewrite occurs_CR_LF; apply IH;
      cbn [String.length]; lia.
  - cbn [occurs]. rewrite (proj2 (Ascii.eqb_neq CR c)) by congruence.
    apply IH. lia.
Qed.

Lemma content_in_trace root_dir text :
  Content text ∈ (main_trace root_dir).2 → ∃ raw, text = Codec.read_text raw.
Proof.
  rewrite main_trace_process.
  assert (Hchunks : ∀ fs : list item,
            Content text ∈ fs ≫= chunks_of → ∃ raw, text = Codec.read_text raw).
  { intros fs ([[dp n] d] & Hin & _)%list_elem_of_bind.
    unfold chunks_of in Hin. cbn [fst snd] in Hin.
    destruct d as [raw|].
    - apply elem_of_cons in Hin as [Hin|Hin]; [discriminate|].
      apply list_elem_of_singleton in Hin. injection Hin as ->. eauto.
    - apply list_elem_of_singleton in Hin. discriminate. }
  destruct (first_unreadable (included root_dir))
    as [Hall|(fs1 & dp & n & fs2 & Heq & Hfs1)].
  - rewrite process_readable by assumption. apply Hchunks.
  - rewrite Heq, process_unreadable by assumption. cbn [snd].
    rewrite elem_of_app, list_elem_of_singleton.
    intros [Hin|Hin]; [exact (Hchunks _ Hin) | discriminate].
Qed.

End PlainText.

(** ** Headers tell the files apart *)
Section HeaderText.

Lemma str_app_longer (y : ascii) (b t : string) : t ≠ String y (b +:+ t).
Proof.
  intros H. apply (f_equal String.length) in H.
  cbn [String.length] in H. rewrite str_length_app in H. lia.
Qed.

Lemma str_app_inv_tail (a b t : string) : a +:+ t = b +:+ t → a = b.
Proof.
  revert b. induction a as [|x a IH]; intros [|y b] H.
  - reflexivity.
  - exfalso. exact (str_app_longer y b t H).
  - exfalso. exact (str_app_longer x a t (eq_sym H)).
  - rewrite !app_cons in H. injection H as -> H. f_equal. exact (IH b H).
Qed.

Lemma header_inj (a b : string) : header a = header b → a = b.
Proof.
  unfold header. intros H.
  do 3 apply (inj (String.app _)) in H.
  exact (str_app_inv_tail _ _ _ H).
Qed.

Lemma concat_sep_cons (x y : string) (r : list string) :
  String.concat "/" (x :: y :: r) = x +:+ "/" +:+ String.concat "/" (y :: r).
Proof. reflexivity. Qed.

Lemma has_sep_cons c r : has_sep (String c r) = Ascii.eqb c "/" || has_sep r.
Proof. reflexivity. Qed.

Lemma sep_split (x y s t : string) :
  has_sep x = false → has_sep y = false →
  x +:+ "/" +:+ s = y +:+ "/" +:+ t → x = y ∧ s = t.
Proof.
  revert y. induction x as [|c x IH]; intros [|d y] Hx Hy H.
  - change (String "/" s = String "/" t) in H. injection H as ->.
    split; reflexivity.
  - exfalso. rewrite app_cons in H. injection H as <- _.
    rewrite has_sep_cons in Hy. discriminate.
  - exfalso. rewrite app_cons in H. injection H as -> _.
    rewrite has_sep_cons in Hx. discriminate.
  - rewrite !app_cons in H. injection H as -> H.
    rewrite has_sep_cons in Hx, Hy.
    apply orb_false_iff in Hx as [_ Hx]. apply orb_false_iff in Hy as [_ Hy].
    destruct (IH y Hx Hy H) as [-> ->]. split; reflexivity.
Qed.

Lemma sep_absent (x y t : string) :
  has_sep x = false → x ≠ y +:+ "/" +:+ t.
Proof.
  revert y. induction x as [|c x IH]; intros [|d y] Hx H.
  - discriminate.
  - rewrite app_cons in H. discriminate.
  - injection H as -> _. rewrite has_sep_cons in Hx. discriminate.
  - rewrite app_cons in H. injection H as -> H.
    rewrite has_sep_cons in Hx. apply orb_false_iff in Hx as [_ Hx].
    exact (IH y Hx H).
Qed.

Lemma is_name_spec (s : string) :
  is_name s = true → s ≠ "" ∧ has_sep s = false.
Proof.
  unfold is_name. intros [H1 H2]%andb_true_iff.
  apply negb_true_iff in H1, H2. split; [|exact H2].
  apply String.eqb_neq. exact H1.
Qed.

Lemma concat_sep_not_empty (x : string) (r : list string) :
  x ≠ "" → String.concat "/" (x :: r) ≠ "".
Proof.
  intros Hx. destruct r as [|y r]; [exact Hx|].
  rewrite concat_sep_cons. destruct x as [|c x]; [congruence|].
  rewrite app_cons. discriminate.
Qed.

Lemma os_path_relpath_inj (p q : path) :
  forallb is_name p = true → forallb is_name q = true →
  os_path_relpath p = os_path_relpath q → p = q.
Proof.
  unfold os_path_relpath. revert q.
  induction p as [|x p IH]; intros [|y q] Hp Hq H.
  - reflexivity.
  - exfalso. cbn [forallb] in Hq. apply andb_true_iff in Hq as [Hy _].
    apply is_name_spec in Hy as [Hy _].
    exact (concat_sep_not_empty y q Hy (eq_sym H)).
  - exfalso. cbn [forallb] in Hp. apply andb_true_iff in Hp as [Hx _].
    apply is_name_spec in Hx as [Hx _].
    exact (concat_sep_not_empty x p Hx H).
  - cbn [forallb] in Hp, Hq.
    apply andb_true_iff in Hp as [Hx Hp]. apply andb_true_iff in Hq as [Hy Hq].
    apply is_name_spec in Hx as [_ Hx]. apply is_name_spec in Hy as [_ Hy].
    destruct p as [|x' p], q as [|y' q].
    + cbn in H. congruence.
    + exfalso. rewrite concat_sep_cons in H. exact (sep_absent _ _ _ Hx H).
    + exfalso. rewrite concat_sep_cons in H.
      exact (sep_absent _ _ _ Hy (eq_sym H)).
    + rewrite !concat_sep_cons in H.
      destruct (sep_split _ _ _ _ Hx Hy H) as [-> Hrest].
      f_equal. exact (IH _ Hp Hq Hrest).
Qed.

End HeaderText.

(** ** Reading does not lengthen *)
Section Lengths.

Lemma emit_length (bs : list byte) (rest : string) :
  String.length (Codec.emit bs rest) = length bs + String.length rest.
Proof.
  induction bs as [|b bs IH]; [reflexivity|].
  rewrite emit_cons. cbn [String.length length]. rewrite IH. reflexivity.
Qed.

Lemma utf8_ignore_length_bounded (n : nat) :
  ∀ bs : list byte,
    (length bs ≤ n)%nat →
    (String.length (Codec.utf8_ignore bs) ≤ length bs)%nat.
Proof.
  induction n as [|n IH]; intros [|b1 r1] Hlen; cbn [length] in Hlen;
    try (cbn; lia).
  assert (IH' : ∀ bs : list byte, (length bs ≤ length r1)%nat →
            (String.length (Codec.utf8_ignore bs) ≤ length bs)%nat)
    by (intros bs Hbs; apply IH; lia).
  clear IH Hlen. rewrite utf8_ignore_cons.
  repeat match goal with
         | |- context [if ?c then _ else _] => destruct c
         | |- context [match ?r with [] => _ | _ :: _ => _ end] =>
           destruct r as [|? ?]
         end;
    rewrite ?emit_length; cbn [length String.length];
    try lia;
    match goal with
    | |- (String.length (Codec.utf8_ignore ?bs) ≤ _)%nat =>
      pose proof (IH' bs ltac:(cbn [length]; lia)); cbn [length] in *; lia
    | |- (_ + String.length (Codec.utf8_ignore ?bs) ≤ _)%nat =>
      pose proof (IH' bs ltac:(cbn [length]; lia)); cbn [length] in *; lia
    end.
Qed.

Lemma universal_newlines_length_bounded (n : nat) :
  ∀ s : string,
    (String.length s ≤ n)%nat →
    (String.length (Codec.universal_newlines s) ≤ String.length s)%nat.
Proof.
  induction n as [|n IH]; intros [|c r] Hlen; cbn [String.length] in Hlen;
    try (cbn; lia).
  rewrite universal_newlines_cons.
  destruct (decide (c = CR)).
  - destruct r as [|c' r']; [cbn; lia|].
    cbn [String.length] in Hlen.
    destruct (decide (c' = LF)); cbn [String.length].
    + pose proof (IH r' ltac:(lia)). lia.
    + pose proof (IH (String c' r') ltac:(cbn [String.length]; lia)) as H.
      cbn [String.length] in H. lia.
  - cbn [String.length]. pose proof (IH r ltac:(lia)). lia.
Qed.

End Lengths.

(** * The claims *)

(** C1, as stated, fails: when the root directory cannot be listed the run
    does not raise.  [os.walk] ignores the error of [scandir] and yields
    nothing, so [main] returns normally. *)
Lemma root_missing_run_does_not_fail : (main None None).1 ≠ None.
Proof. vm_compute. discriminate. Qed.

(** C1 (amended): when the root directory does not exist or cannot be
    listed, the run returns normally and leaves the output file created
    (or emptied) with no content, whatever it held before. *)
Theorem root_missing_returns_empty (output_file : option string) :
  main None output_file = (Some (), Some "").
Proof. reflexivity. Qed.

(** C2: no directory whose path from the root goes through an excluded
    name is ever visited by the walk, no file with such a directory on its
    path, at any depth, gets a header in the output, and the run is the
    same whatever lies beneath the excluded directories. *)
Theorem excluded_dirs_never_visited (root_dir : option (list entry)) :
  (∀ dirpath dirs files,
      (dirpath, dirs, files) ∈ os_walk_root prune root_dir →
      Forall (fun d => d ∉ EXCLUDE_DIRS) dirpath) ∧
  (∀ dirs name d,
      d ∈ dirs → d ∈ EXCLUDE_DIRS →
      Header (os_path_join dirs name) ∉ (main_trace root_dir).2) ∧
  (∀ listing listing' output_file,
      root_dir = Some listing →
      Forall2 agree listing listing' →
      main (Some listing') output_file = main root_dir output_file).
Proof.
  split; [|split].
  - intros dirpath dirs files Hv. apply (os_walk_dirpaths _ _ Hv).
  - intros dirs name d Hd Hex Hin.
    apply header_in_trace in Hin as (dirs' & name' & data & Heq & Hin).
    apply os_path_join_inj in Heq as [<- <-].
    apply included_iff in Hin as [_ [Hclean _]]. cbn [fst snd] in Hclean.
    rewrite Forall_forall in Hclean. exact (Hclean d Hd Hex).
  - intros listing listing' output_file -> Hagree.
    rewrite !main_unfold. unfold main_trace, write_tree, os_walk_root.
    rewrite (agree_os_walk [] _ _ Hagree). reflexivity.
Qed.

Lemma excluded_dirs_never_visited_witness :
  let root_dir :=
    Some [File "a.py" (py "A");
          Dir "src" (Some [Dir "node_modules"
                             (Some [Dir "lib" (Some [File "b.py" (py "B")])])])] in
  (Header (os_path_join ["src"; "node_modules"; "lib"] "b.py") ∉
     (main_trace root_dir).2) ∧
  main (Some [File "a.py" (py "A");
              Dir "src" (Some [Dir "node_modules" (Some [File "c.py" None])])])
       None
  = main root_dir None.
Proof.
  intros root_dir. split.
  - apply (proj1 (proj2 (excluded_dirs_never_visited root_dir))
             ["src"; "node_modules"; "lib"] "b.py" "node_modules").
    + apply (bool_decide_unpack _). vm_compute. exact I.
    + apply (bool_decide_unpack _). vm_compute. exact I.
  - eapply (proj2 (proj2 (excluded_dirs_never_visited root_dir)));
      [reflexivity|].
    constructor; [apply agree_file|].
    constructor; [|constructor].
    apply agree_dir. constructor; [|constructor].
    apply agree_excluded. apply (bool_decide_unpack _). vm_compute. exact I.
Defined.

(** C3, as stated, fails: a file that cannot be opened ends the run, and
    the files that the loops would have reached after it are not in the
    output although no filter rejects them. *)
Lemma file_after_unreadable_not_written :
  let root_dir := Some [File "a.py" None; File "b.py" (py "B")] in
  distinct_names root_dir = true ∧
  file_at root_dir [] "b.py" (py "B") ∧
  visible ([], "b.py", py "B") ∧
  Header (os_path_join [] "b.py") ∉ (main_trace root_dir).2.
Proof.
  cbv zeta. split; [vm_compute; reflexivity|].
  split; [apply (bool_decide_unpack _); vm_compute; exact I|].
  split; [apply (bool_decide_unpack _); vm_compute; exact I|].
  apply (bool_decide_unpack _). vm_compute. exact I.
Qed.

(** C3 (amended): in a run that returns, on a tree whose listings have
    pairwise distinct names, every file that is not beneath an excluded
    directory and whose name passes the extension filter has exactly one
    header in the output, made of its path relative to the root, and the
    text read from the file is written unchanged right after that
    header. *)
Theorem included_file_written_once
    (root_dir : option (list entry)) (output_file : option string)
    (dirs : path) (name : string) (raw : list byte) :
  distinct_names root_dir = true →
  (main root_dir output_file).1 = Some () →
  file_at root_dir dirs name (Some raw) →
  visible (dirs, name, Some raw) →
  ∃ before after,
    (main_trace root_dir).2 =
      before ++ Header (os_path_join dirs name) ::
                Content (Codec.read_text raw) :: after ∧
    (Header (os_path_join dirs name) ∉ before) ∧
    (Header (os_path_join dirs name) ∉ after) ∧
    (main root_dir output_file).2 =
      Some (file_content before +:+
            header (os_path_relpath (os_path_join dirs name)) +:+
            Codec.read_text raw +:+ file_content after).
Proof.
  intros Hdistinct Hret Hat Hvis. rewrite main_status in Hret.
  apply trace_of_returning_run in Hret as [_ Hlog].
  assert (Hin : (dirs, name, Some raw) ∈ included root_dir)
    by (apply included_iff; split; assumption).
  apply nodup_included in Hdistinct.
  apply list_elem_of_split in Hin as (fs1 & fs2 & Hsplit).
  rewrite Hsplit, fmap_app, fmap_cons in Hdistinct.
  apply NoDup_app in Hdistinct as (_ & Hfs1 & Hfs2).
  apply NoDup_cons in Hfs2 as [Hfs2 _]. cbn [fst] in Hfs1, Hfs2.
  exists (fs1 ≫= chunks_of), (fs2 ≫= chunks_of).
  assert (Htrace : (main_trace root_dir).2 =
            (fs1 ≫= chunks_of) ++ Header (os_path_join dirs name) ::
              Content (Codec.read_text raw) :: (fs2 ≫= chunks_of)).
  { rewrite Hlog, Hsplit, bind_app, bind_cons. reflexivity. }
  split; [exact Htrace|]. split; [|split].
  - apply header_not_in_chunks. intros Hk. apply (Hfs1 _ Hk). left.
  - apply header_not_in_chunks. exact Hfs2.
  - rewrite main_content, Htrace, file_content_app, !file_content_cons.
    reflexivity.
Qed.

Lemma included_file_written_once_witness :
  ∃ before after,
    (main_trace (Some [Dir "src" (Some [File "b.py" (py "B")]);
                       File "a.py" (py "A")])).2 =
      before ++ Header (os_path_join ["src"] "b.py") ::
                Content (Codec.read_text (bytes_of "B")) :: after ∧
    (Header (os_path_join ["src"] "b.py") ∉ before) ∧
    Header (os_path_join ["src"] "b.py") ∉ after.
Proof.
  destruct (included_file_written_once
              (Some [Dir "src" (Some [File "b.py" (py "B")]);
                     File "a.py" (py "A")])
              None ["src"] "b.py" (bytes_of "B"))
    as (before & after & Htrace & Hb & Ha & _).
  - vm_compute. reflexivity.
  - vm_compute. reflexivity.
  - apply (bool_decide_unpack _). vm_compute. exact I.
  - apply (bool_decide_unpack _). vm_compute. exact I.
  - exists before, after. split; [exact Htrace|]. split; assumption.
Defined.

(** C4: the extension filter rejects a name exactly when the name is some
    text followed by a member of the excluded-extension set, a literal
    suffix test: a name that is only the extension is rejected, a name
    with the extension in the middle or in other letter case is not.  No
    file whose name is rejected gets a header in the output, whatever its
    directory. *)
Theorem extension_filter_is_suffix_match :
  (∀ filename,
      should_include_file filename = false ↔
      ∃ ext stem, ext ∈ EXCLUDE_EXTS ∧ filename = stem +:+ ext) ∧
  (∀ root_dir dirs name,
      should_include_file name = false →
      Header (os_path_join dirs name) ∉ (main_trace root_dir).2) ∧
  should_include_file ".json" = false ∧
  should_include_file "notes.txt.bak" = true ∧
  should_include_file "README.TXT" = true ∧
  should_include_file "mytxt" = true.
Proof.
  split; [exact should_include_file_false|]. split.
  - intros root_dir dirs name Hname Hin.
    apply header_in_trace in Hin as (ds & m & d & Heq & Hin).
    apply os_path_join_inj in Heq as [<- <-].
    apply included_iff in Hin as [_ [_ Hinc]]. cbn [fst snd] in Hinc.
    congruence.
  - repeat split; vm_compute; reflexivity.
Qed.

Lemma extension_filter_is_suffix_match_witness :
  Header (os_path_join ["docs"] "notes.txt") ∉
  (main_trace (Some [Dir "docs" (Some [File "notes.txt" (py "N");
                                       File "main.go" (py "M")])])).2.
Proof.
  apply (proj1 (proj2 extension_filter_is_suffix_match)).
  vm_compute. reflexivity.
Defined.

(** C5: the output file is a sequence of records, one per file written
    and none for a directory; each record is a line feed, a line feed, the
    line [# ==== <relative path> ====], a line feed, and then the text of
    the file.  Nothing follows the last record of a run that returns; a
    run that raises leaves, after its records, the header of the file it
    could not open. *)
Theorem output_layout
    (root_dir : option (list entry)) (output_file : option string) :
  ∃ (recs : list (path * string)) (tail : list chunk),
    (main_trace root_dir).2 = (recs ≫= record_chunks) ++ tail ∧
    (main root_dir output_file).2 =
      Some (String.concat "" (record_text <$> recs) +:+ file_content tail) ∧
    (∀ r, record_text r =
          nl +:+ nl +:+ "# ==== " +:+ os_path_relpath r.1 +:+ " ====" +:+
          nl +:+ nl +:+ r.2) ∧
    Forall (fun r : path * string =>
              ∃ dirs name raw,
                r = (os_path_join dirs name, Codec.read_text raw) ∧
                file_at root_dir dirs name (Some raw)) recs ∧
    match (main root_dir output_file).1 with
    | Some _ => tail = []
    | None => ∃ dirs name,
        tail = [Header (os_path_join dirs name)] ∧
        file_at root_dir dirs name None
    end.
Proof.
  assert (Hlit : ∀ r, record_text r =
                      nl +:+ nl +:+ "# ==== " +:+ os_path_relpath r.1 +:+
                      " ====" +:+ nl +:+ nl +:+ r.2).
  { intros r. unfold record_text, header. rewrite !str_app_assoc. reflexivity. }
  rewrite main_status, main_content, main_trace_process.
  destruct (first_unreadable (included root_dir))
    as [Hall|(fs1 & dp & n & fs2 & Heq & Hfs1)].
  - destruct (chunks_of_readable _ Hall) as (recs & Hrecs & Hrel).
    exists recs, []. rewrite process_readable by assumption. cbn [fst snd].
    rewrite app_nil_r, Hrecs, file_content_records.
    split; [reflexivity|]. split; [rewrite str_app_nil_r; reflexivity|].
    split; [exact Hlit|]. split; [|reflexivity].
    apply (records_are_files root_dir (included root_dir)); [tauto | exact Hrel].
  - destruct (chunks_of_readable _ Hfs1) as (recs & Hrecs & Hrel).
    exists recs, [Header (os_path_join dp n)].
    rewrite Heq, process_unreadable by assumption. cbn [fst snd].
    rewrite Hrecs, file_content_app, file_content_records.
    split; [reflexivity|]. split; [reflexivity|].
    split; [exact Hlit|]. split.
    + apply (records_are_files root_dir fs1); [|exact Hrel].
      intros f Hf. rewrite Heq, elem_of_app. left. exact Hf.
    + exists dp, n. split; [reflexivity|].
      apply (included_iff root_dir dp n None).
      rewrite Heq, elem_of_app. right. left.
Qed.

(** C6: when a file that the loops reach cannot be opened, the run raises;
    the last thing written is the header of a file that could not be
    opened, so nothing is skipped over and nothing follows. *)
Theorem unreadable_file_aborts
    (root_dir : option (list entry)) (output_file : option string)
    (dirs : path) (name : string) :
  file_at root_dir dirs name None →
  visible (dirs, name, None) →
  (main root_dir output_file).1 = None ∧
  ∃ log dirs' name',
    (main_trace root_dir).2 = log ++ [Header (os_path_join dirs' name')] ∧
    file_at root_dir dirs' name' None ∧
    visible (dirs', name', None) ∧
    Forall (fun c => ∃ dirs'' name'' d,
                (c = Header (os_path_join dirs'' name'') ∨
                 ∃ raw, d = Some raw ∧ c = Content (Codec.read_text raw)) ∧
                file_at root_dir dirs'' name'' d ∧ is_Some d) log.
Proof.
  intros Hat Hvis.
  assert (Hin : (dirs, name, None) ∈ included root_dir)
    by (apply included_iff; split; assumption).
  rewrite main_status, main_trace_process.
  destruct (first_unreadable (included root_dir))
    as [Hall|(fs1 & dp & n & fs2 & Heq & Hfs1)].
  - rewrite Forall_forall in Hall. destruct (Hall _ Hin) as [raw Hraw].
    discriminate.
  - rewrite Heq, process_unreadable by assumption. split; [reflexivity|].
    exists (fs1 ≫= chunks_of), dp, n. split; [reflexivity|].
    assert (Hfail : (dp, n, None) ∈ included root_dir).
    { rewrite Heq, elem_of_app. right. left. }
    apply included_iff in Hfail as [Hfat Hfvis].
    split; [assumption|]. split; [assumption|].
    apply Forall_forall. intros c Hc.
    apply list_elem_of_bind in Hc as ([[ds m] d] & Hc & Hf).
    assert (Hfin : (ds, m, d) ∈ included root_dir).
    { rewrite Heq, elem_of_app. left. assumption. }
    apply included_iff in Hfin as [Hfile _].
    rewrite Forall_forall in Hfs1. destruct (Hfs1 _ Hf) as [raw Hraw].
    cbn [snd] in Hraw. subst d.
    exists ds, m, (Some raw). split; [|split; [assumption | eexists; reflexivity]].
    unfold chunks_of in Hc. cbn [fst snd] in Hc.
    apply elem_of_cons in Hc as [->|Hc]; [left; reflexivity|].
    apply list_elem_of_singleton in Hc as ->. right. eexists. split; reflexivity.
Qed.

Lemma unreadable_file_aborts_witness :
  (main (Some [File "a.py" (py "A");
               Dir "src" (Some [File "locked.py" None; File "c.py" (py "C")])])
        (Some "old")).1 = None.
Proof.
  apply (unreadable_file_aborts _ _ ["src"] "locked.py").
  - apply (bool_decide_unpack _). vm_compute. exact I.
  - apply (bool_decide_unpack _). vm_compute. exact I.
Defined.

(** C7: a run raises only when some file that the loops reach cannot be
    opened; the bytes of the files play no part in it.  In a run that
    returns, every reached file, whatever its bytes, has its header
    followed by the text decoded from it; decoding drops what it cannot
    decode, keeps every ASCII character of the file other than line
    endings, and decodes what starts at a character boundary as it would
    on its own, whatever bytes precede it. *)
Theorem decode_errors_never_abort
    (root_dir : option (list entry)) (output_file : option string) :
  ((main root_dir output_file).1 = None ↔
   ∃ dirs name, file_at root_dir dirs name None ∧ visible (dirs, name, None)) ∧
  (∀ dirs name raw,
      (main root_dir output_file).1 = Some () →
      file_at root_dir dirs name (Some raw) →
      visible (dirs, name, Some raw) →
      ∃ before after,
        (main_trace root_dir).2 =
          before ++ Header (os_path_join dirs name) ::
                    Content (Codec.read_text raw) :: after) ∧
  (∀ raw, plain (Codec.read_text raw) = plain (string_of_list_byte raw)) ∧
  (∀ junk rest,
      boundary rest →
      Codec.utf8_ignore (junk ++ rest) =
      Codec.utf8_ignore junk +:+ Codec.utf8_ignore rest).
Proof.
  split; [|split; [|split; [exact read_text_keeps_plain|exact utf8_ignore_app]]].
  - rewrite main_status, main_trace_process. split.
    + intros Hnone.
      destruct (first_unreadable (included root_dir))
        as [Hall|(fs1 & dp & n & fs2 & Heq & _)].
      * apply process_returns_iff in Hall. congruence.
      * exists dp, n. apply (included_iff root_dir dp n None).
        rewrite Heq, elem_of_app. right. left.
    + intros (dirs & name & Hat & Hvis).
      assert (Hin : (dirs, name, None) ∈ included root_dir)
        by (apply included_iff; split; assumption).
      destruct (process (included root_dir)) as [[[]|] log] eqn:Hp; [|reflexivity].
      assert (Hret : (process (included root_dir)).1 = Some ())
        by (rewrite Hp; reflexivity).
      apply process_returns_iff in Hret. rewrite Forall_forall in Hret.
      destruct (Hret _ Hin) as [raw Hraw]. discriminate.
  - intros dirs name raw Hret Hat Hvis. rewrite main_status in Hret.
    apply trace_of_returning_run in Hret as [_ Hlog].
    assert (Hin : (dirs, name, Some raw) ∈ included root_dir)
      by (apply included_iff; split; assumption).
    apply list_elem_of_split in Hin as (fs1 & fs2 & Hsplit).
    exists (fs1 ≫= chunks_of), (fs2 ≫= chunks_of).
    rewrite Hlog, Hsplit, bind_app, bind_cons. reflexivity.
Qed.

Lemma decode_errors_never_abort_witness :
  let root_dir :=
    Some [File "bad.py" (Some ([xff; xc3] ++ bytes_of "x = 1" ++ [xe2; x82]));
          File "next.py" (py "N")] in
  (∃ before after,
      (main_trace root_dir).2 =
        before ++ Header (os_path_join [] "bad.py") :: Content "x = 1" :: after) ∧
  (∃ before after,
      (main_trace root_dir).2 =
        before ++ Header (os_path_join [] "next.py") :: Content "N" :: after).
Proof.
  intros root_dir. split.
  - apply (proj1 (proj2 (decode_errors_never_abort root_dir None))
             [] "bad.py" ([xff; xc3] ++ bytes_of "x = 1" ++ [xe2; x82])).
    + vm_compute. reflexivity.
    + apply (bool_decide_unpack _). vm_compute. exact I.
    + apply (bool_decide_unpack _). vm_compute. exact I.
  - apply (proj1 (proj2 (decode_errors_never_abort root_dir None))
             [] "next.py" (bytes_of "N")).
    + vm_compute. reflexivity.
    + apply (bool_decide_unpack _). vm_compute. exact I.
    + apply (bool_decide_unpack _). vm_compute. exact I.
Defined.

(** C8: the output file exists after the run and holds only what this run
    wrote, whatever it held before (it is emptied, not appended to); for
    an empty root directory the run returns and the file is empty. *)
Theorem output_created_or_truncated
    (root_dir : option (list entry)) (output_file : option string) :
  (main root_dir output_file).2 = Some (file_content (main_trace root_dir).2) ∧
  (main root_dir output_file).2 = (main root_dir None).2 ∧
  main (Some []) output_file = (Some (), Some "").
Proof.
  rewrite !main_unfold. split; [reflexivity|]. split; [reflexivity|].
  unfold main. vm_compute. reflexivity.
Qed.

(** C9: a second run on the same tree, started on the output file that the
    first run left, gives the same result and the same file; the content
    an earlier run left in the output file is not an input of the run,
    also when that file lies in the root under the name
    all_code_combined.txt of the reference invocation. *)
Theorem rerun_identical
    (root_dir : option (list entry)) (output_file : option string) :
  main root_dir (main root_dir output_file).2 = main root_dir output_file ∧
  (∀ other : option string, main root_dir other = main root_dir output_file) ∧
  (∀ before after d1 d2,
      main (Some (before ++ File "all_code_combined.txt" d1 :: after)) output_file
      = main (Some (before ++ File "all_code_combined.txt" d2 :: after)) output_file).
Proof.
  split; [rewrite !main_unfold; reflexivity|].
  split; [intros other; rewrite !main_unfold; reflexivity|].
  intros before after d1 d2. rewrite !main_unfold.
  rewrite !main_trace_process. unfold included, os_walk_root, os_walk.
  rewrite !bind_cons, !included_in_here, !bind_app, !bind_cons.
  assert (Hout : should_include_file "all_code_combined.txt" = false)
    by (vm_compute; reflexivity).
  cbn [here_of descend]. rewrite Hout.
  assert (Hd : dirnames (before ++ File "all_code_combined.txt" d1 :: after)
               = dirnames (before ++ File "all_code_combined.txt" d2 :: after)).
  { unfold dirnames. rewrite !omap_app. reflexivity. }
  rewrite Hd. reflexivity.
Qed.

(** C10: each filter is applied to its own kind of entry only.  The body
    of the inner loop writes the header of every file whose name passes
    the extension filter, without looking the name up in the directory
    set; the walk goes through every listable directory whose name is not
    in the directory set, without looking at the end of the name.  So, in
    a run that returns, a file of the tree has a header in the output
    exactly when no directory on its path is an excluded directory name
    and its own name passes the extension filter: a file named dist is
    written, and files beneath a directory named data.json are reached. *)
Theorem filters_apply_to_own_kind :
  (∀ dirpath name data log,
      should_include_file name = true →
      ∃ rest, (write_file dirpath (name, data) log).2 =
              log ++ Header (os_path_join dirpath name) :: rest) ∧
  (∀ top listing name sub (v : visit),
      Dir name (Some sub) ∈ listing →
      name ∉ EXCLUDE_DIRS →
      v ∈ os_walk prune (os_path_join top name) sub →
      v ∈ os_walk prune top listing) ∧
  (∀ root_dir output_file dirs name raw,
      (main root_dir output_file).1 = Some () →
      file_at root_dir dirs name (Some raw) →
      (Header (os_path_join dirs name) ∈ (main_trace root_dir).2 ↔
       Forall (fun d => d ∉ EXCLUDE_DIRS) dirs ∧
       should_include_file name = true)) ∧
  ("dist" ∈ EXCLUDE_DIRS ∧ should_include_file "dist" = true) ∧
  (("data.json" ∉ EXCLUDE_DIRS) ∧ should_include_file "data.json" = false).
Proof.
  split; [|split; [|split; [|split; split]]].
  - intros dirpath name data log Hname.
    rewrite write_file_unfold, Hname. destruct data as [raw|]; eauto.
  - intros top listing name sub v Hdir Hname Hv.
    unfold os_walk. right. apply list_elem_of_bind.
    exists (Dir name (Some sub)). split; [|exact Hdir].
    cbn [descend]. rewrite bool_decide_eq_true_2; [exact Hv|].
    apply prune_elem. split; [|exact Hname].
    apply dirnames_elem. eexists. exact Hdir.
  - intros root_dir output_file dirs name raw Hret Hat.
    rewrite main_status in Hret.
    apply trace_of_returning_run in Hret as [_ Hlog]. split.
    + intros Hin. apply header_in_trace in Hin as (ds & m & d & Heq & Hin).
      apply os_path_join_inj in Heq as [<- <-].
      apply included_iff in Hin as [_ Hvis]. exact Hvis.
    + intros Hvis. rewrite Hlog. apply list_elem_of_bind.
      exists (dirs, name, Some raw). split; [left|].
      apply included_iff. split; assumption.
  - apply (bool_decide_unpack _). vm_compute. exact I.
  - vm_compute. reflexivity.
  - apply (bool_decide_unpack _). vm_compute. exact I.
  - vm_compute. reflexivity.
Qed.

Lemma filters_apply_to_own_kind_witness :
  let root_dir :=
    Some [File "dist" (py "D");
          Dir "data.json" (Some [File "x.py" (py "X")])] in
  Header (os_path_join [] "dist") ∈ (main_trace root_dir).2 ∧
  Header (os_path_join ["data.json"] "x.py") ∈ (main_trace root_dir).2.
Proof.
  intros root_dir. split.
  - apply (proj1 (proj2 (proj2 filters_apply_to_own_kind))
             root_dir None [] "dist" (bytes_of "D")).
    + vm_compute. reflexivity.
    + apply (bool_decide_unpack _). vm_compute. exact I.
    + split; [constructor | vm_compute; reflexivity].
  - apply (proj1 (proj2 (proj2 filters_apply_to_own_kind))
             root_dir None ["data.json"] "x.py" (bytes_of "X")).
    + vm_compute. reflexivity.
    + apply (bool_decide_unpack _). vm_compute. exact I.
    + split; [|vm_compute; reflexivity].
      constructor; [|constructor].
      apply (bool_decide_unpack _). vm_compute. exact I.
Defined.

(** * Further properties *)

(** X1: the extension filter rejects a name only if the name has at least
    four characters and a dot followed by at least three more characters;
    names without a dot, such as Makefile, always pass. *)
Theorem rejected_name_has_dot (name : string) :
  should_include_file name = false →
  (4 ≤ String.length name)%nat ∧
  ∃ stem rest, name = stem +:+ "." +:+ rest ∧ (3 ≤ String.length rest)%nat.
Proof.
  intros (ext & stem & Hext & ->)%should_include_file_false.
  rewrite str_length_app. split.
  - pose proof (exclude_exts_length ext Hext). lia.
  - apply exclude_exts_cases in Hext as [->| [->| ->]].
    + exists stem, "json". split; [reflexivity | cbn; lia].
    + exists stem, "pdf". split; [reflexivity | cbn; lia].
    + exists stem, "txt". split; [reflexivity | cbn; lia].
Qed.

Lemma rejected_name_has_dot_witness :
  (4 ≤ String.length "package-lock.json")%nat ∧
  ∃ stem rest, "package-lock.json" = stem +:+ "." +:+ rest ∧
               (3 ≤ String.length rest)%nat.
Proof.
  apply (rejected_name_has_dot "package-lock.json").
  vm_compute. reflexivity.
Defined.

(** X2: the extension filter looks at the end of the name only: whatever
    is put in front of a name of five characters or more, the answer is
    the same. *)
Theorem filter_reads_last_five (front name : string) :
  (5 ≤ String.length name)%nat →
  should_include_file (front +:+ name) = should_include_file name.
Proof.
  intros Hlen.
  destruct (should_include_file name) eqn:Hname.
  - destruct (should_include_file (front +:+ name)) eqn:Hfront; [reflexivity|].
    apply should_include_file_false in Hfront as (ext & stem & Hext & Heq).
    destruct (app_eq_tail front name stem ext Heq) as [e ->].
    { pose proof (exclude_exts_length ext Hext). lia. }
    assert (Hrej : should_include_file (e +:+ ext) = false)
      by (apply should_include_file_false; eauto).
    congruence.
  - apply should_include_file_false in Hname as (ext & stem & Hext & ->).
    apply should_include_file_false. exists ext, (front +:+ stem).
    split; [exact Hext|]. rewrite str_app_assoc. reflexivity.
Qed.

Lemma filter_reads_last_five_witness :
  should_include_file ("backup-" +:+ "notes.txt") = should_include_file "notes.txt".
Proof.
  apply (filter_reads_last_five "backup-" "notes.txt"). cbn. lia.
Defined.

(** X3: the headers of the output are paths of files of the tree that pass
    both filters, none more often than the tree has it; in a run that
    returns they are exactly those paths, and every header is followed by
    one text. *)
Theorem headers_are_the_visible_files (listing : list entry) :
  headers (main_trace (Some listing)).2
    ⊆+ path_of <$> filter visible (all_files listing) ∧
  ((main_trace (Some listing)).1 = Some () →
   headers (main_trace (Some listing)).2
     ≡ₚ path_of <$> filter visible (all_files listing) ∧
   length (main_trace (Some listing)).2
     = 2 * length (filter visible (all_files listing))).
Proof.
  rewrite <-included_visible, main_trace_process.
  destruct (first_unreadable (included (Some listing)))
    as [Hall|(fs1 & dp & n & fs2 & Heq & Hfs1)].
  - rewrite process_readable by assumption. cbn [fst snd].
    rewrite headers_chunks. split; [reflexivity|]. intros _.
    split; [reflexivity|].
    apply length_chunks_readable, Hall.
  - rewrite Heq, process_unreadable by assumption. cbn [fst snd].
    split; [|discriminate].
    rewrite headers_app, headers_chunks, !fmap_app, fmap_cons.
    apply submseteq_app; [reflexivity|].
    apply submseteq_skip, submseteq_nil_l.
Qed.

Lemma headers_are_the_visible_files_witness :
  headers (main_trace (Some [Dir "src" (Some [File "b.py" (py "B")]);
                             File "notes.txt" (py "N");
                             File "a.py" (py "A")])).2
  ≡ₚ [["src"; "b.py"]; ["a.py"]].
Proof.
  pose proof (proj1 (proj2 (headers_are_the_visible_files
                              [Dir "src" (Some [File "b.py" (py "B")]);
                               File "notes.txt" (py "N");
                               File "a.py" (py "A")])
                       ltac:(vm_compute; reflexivity))) as H.
  vm_compute in H. vm_compute. exact H.
Defined.

(** X4: the output file is left empty exactly when no file of the tree
    passes both filters; as soon as one does, something is written, also
    by a run that raises. *)
Theorem output_empty_iff
    (root_dir : option (list entry)) (output_file : option string) :
  (main root_dir output_file).2 = Some "" ↔
  ∀ dirs name data,
    file_at root_dir dirs name data → ¬ visible (dirs, name, data).
Proof.
  rewrite main_content, main_trace_process.
  destruct (included root_dir) as [|[[dp n] d] fs] eqn:Hinc.
  - split; [|reflexivity]. intros _ dirs name data Hat Hvis.
    assert (Hin : (dirs, name, data) ∈ included root_dir)
      by (apply included_iff; split; assumption).
    rewrite Hinc in Hin. apply elem_of_nil in Hin. exact Hin.
  - split.
    + intros Hempty. exfalso.
      destruct (trace_starts_with_header ((dp, n, d) :: fs))
        as (p & log & Hlog); [discriminate|].
      rewrite Hlog, file_content_cons in Hempty. cbn [render] in Hempty.
      injection Hempty as Hempty. unfold header, nl in Hempty.
      rewrite app_cons in Hempty. discriminate.
    + intros Hnone. exfalso.
      assert (Hin : (dp, n, d) ∈ included root_dir) by (rewrite Hinc; left).
      apply included_iff in Hin as [Hat Hvis]. exact (Hnone _ _ _ Hat Hvis).
Qed.

(** X5: in a run that returns, what is written for a directory is what is
    written for its own files, in their order, followed by what a run on
    each of its subdirectories writes, in their order and with the name
    of the subdirectory put in front of every path; the subdirectories
    with an excluded name and those that cannot be listed add nothing.
    The runs on the subdirectories return too. *)
Theorem trace_of_directory (listing : list entry) :
  (main_trace (Some listing)).1 = Some () →
  (main_trace (Some listing)).2
    = (own_files listing ≫= chunks_of) ++ (listing ≫= trace_below) ∧
  ∀ n sub,
    Dir n (Some sub) ∈ listing → n ∉ EXCLUDE_DIRS →
    (main_trace (Some sub)).1 = Some ().
Proof.
  intros Hret. apply trace_of_returning_run in Hret as [Hall Hlog].
  rewrite included_unfold in Hall. apply Forall_app in Hall as [_ Hall].
  rewrite Forall_bind in Hall. rewrite Forall_forall in Hall.
  assert (Hsub : ∀ n sub, Dir n (Some sub) ∈ listing → n ∉ EXCLUDE_DIRS →
                   Forall readable (included (Some sub))).
  { intros n sub Hin Hn. specialize (Hall _ Hin). cbn in Hall.
    rewrite decide_False in Hall by exact Hn.
    apply (readable_under [n]), Hall. }
  split.
  - rewrite Hlog, included_unfold, bind_app, bind_bind. f_equal.
    apply Forall_bind_ext, Forall_forall. intros e He.
    destruct e as [n d|n [sub|]]; cbn [included_below trace_below];
      try reflexivity.
    destruct (decide (n ∈ EXCLUDE_DIRS)) as [Hn|Hn]; [reflexivity|].
    rewrite chunks_of_under, main_trace_process.
    rewrite (process_readable _ (Hsub n sub He Hn)). reflexivity.
  - intros n sub Hin Hn. rewrite main_trace_process.
    apply process_returns_iff, (Hsub n sub Hin Hn).
Qed.

Lemma trace_of_directory_witness :
  (main_trace (Some [Dir "src" (Some [File "b.py" (py "B")]);
                     File "a.py" (py "A")])).2
  = [Header ["a.py"]; Content "A"] ++
    (push "src" <$> (main_trace (Some [File "b.py" (py "B")])).2).
Proof.
  rewrite (proj1 (trace_of_directory
                    [Dir "src" (Some [File "b.py" (py "B")]);
                     File "a.py" (py "A")]
                    ltac:(vm_compute; reflexivity))).
  vm_compute. reflexivity.
Defined.

(** X6: the run reads nothing but the part of the tree that passes both
    filters: with every file that the extension filter rejects, every
    directory with an excluded name and every directory that cannot be
    listed taken out of the tree, the run ends the same way and writes
    the same output. *)
Theorem run_reads_only_what_passes
    (listing : list entry) (output_file : option string) :
  main (Some (listing ≫= strip)) output_file = main (Some listing) output_file.
Proof.
  rewrite !main_unfold, !main_trace_process, included_strip. reflexivity.
Qed.

(** X7: text that is ASCII and has no carriage return is read back as it
    is: reading the bytes of such a text gives the text. *)
Theorem read_text_of_ascii_text (s : string) :
  ascii_text (bytes_of s) = true → Codec.read_text (bytes_of s) = s.
Proof.
  intros H. rewrite (read_text_ascii _ H).
  apply string_of_list_byte_of_string.
Qed.

Lemma read_text_of_ascii_text_witness :
  Codec.read_text (bytes_of "def f(x): return x") = "def f(x): return x".
Proof.
  apply (read_text_of_ascii_text "def f(x): return x").
  vm_compute. reflexivity.
Defined.

(** X8: no text written to the output for a file holds a carriage return:
    reading turns every line ending into a line feed. *)
Theorem no_carriage_return_written
    (root_dir : option (list entry)) (text : string) :
  Content text ∈ (main_trace root_dir).2 → occurs CR text = false.
Proof.
  intros (raw & ->)%content_in_trace. unfold Codec.read_text.
  apply (no_carriage_return_bounded _ _ (Nat.le_refl _)).
Qed.

Lemma no_carriage_return_written_witness :
  occurs CR (String "a" (String LF (String "b" (String LF "")))) = false.
Proof.
  apply (no_carriage_return_written
           (Some [File "dos.py" (Some ([x61; x0d; x0a; x62; x0d]))])).
  apply (bool_decide_unpack _). vm_compute. exact I.
Defined.

(** X9: the header line tells the files apart: two paths made of names
    that are not empty and hold no separator are written as the same
    header line only when they are the same path. *)
Theorem header_identifies_path (p q : path) :
  forallb is_name p = true → forallb is_name q = true →
  render (Header p) = render (Header q) → p = q.
Proof.
  intros Hp Hq H. cbn [render] in H.
  exact (os_path_relpath_inj p q Hp Hq (header_inj _ _ H)).
Qed.

Lemma header_identifies_path_witness :
  os_path_join ["src"] "b.py" = ["src"; "b.py"].
Proof.
  apply (header_identifies_path (os_path_join ["src"] "b.py") ["src"; "b.py"]);
    vm_compute; reflexivity.
Defined.

(** X10: the text of a file is written without any escaping, so the
    output does not tell a header from a line of a file that looks like
    one: a single file whose ASCII text holds the header of another name
    gives the same output as the two files would. *)
Theorem header_text_is_not_escaped
    (n1 n2 s1 s2 : string) (output_file : option string) :
  should_include_file n1 = true →
  should_include_file n2 = true →
  ascii_text (bytes_of s1) = true →
  ascii_text (bytes_of n2) = true →
  ascii_text (bytes_of s2) = true →
  main (Some [File n1 (py (s1 +:+ header n2 +:+ s2))]) output_file
  = main (Some [File n1 (py s1); File n2 (py s2)]) output_file.
Proof.
  intros Hn1 Hn2 Hs1 Hh Hs2.
  assert (Hheader : ascii_text (bytes_of (header n2)) = true).
  { unfold header. rewrite !bytes_of_app, !ascii_text_app, Hh. reflexivity. }
  assert (Hall : ascii_text (bytes_of (s1 +:+ header n2 +:+ s2)) = true).
  { rewrite !bytes_of_app, !ascii_text_app, Hs1, Hheader, Hs2. reflexivity. }
  rewrite !main_unfold, !main_trace_process, !included_unfold.
  unfold own_files, py. rewrite !bind_cons. cbn [here_of included_below].
  rewrite Hn1, Hn2. cbn [mbind list_bind app process].
  cbn [fst snd].
  rewrite (read_text_ascii _ Hall), (read_text_ascii _ Hs1),
    (read_text_ascii _ Hs2).
  unfold bytes_of. rewrite !string_of_list_byte_of_string.
  f_equal.
Qed.

Lemma header_text_is_not_escaped_witness :
  main (Some [File "a.py" (py ("x = 1" +:+ header "b.py" +:+ "y = 2"))]) None
  = main (Some [File "a.py" (py "x = 1"); File "b.py" (py "y = 2")]) None.
Proof.
  apply (header_text_is_not_escaped "a.py" "b.py" "x = 1" "y = 2" None);
    vm_compute; reflexivity.
Defined.

(** X11: the text read from a file never has more characters (held as
    UTF-8 bytes) than the file has bytes: decoding only drops bytes and
    the translation of line endings only shortens. *)
Theorem read_text_not_longer (raw : list byte) :
  (String.length (Codec.read_text raw) ≤ length raw)%nat.
Proof.
  unfold Codec.read_text.
  pose proof (universal_newlines_length_bounded _ (Codec.utf8_ignore raw)
                (Nat.le_refl _)).
  pose proof (utf8_ignore_length_bounded _ raw (Nat.le_refl _)). lia.
Qed.
